(** * UserOccupationGenreAnalysisOperator: a shallow embedding

    Model of [dags/operators/genere_operator.py].  The operator reads
    three delimited files with pandas, merges them, buckets the age
    column with [pd.cut], sums the nineteen genre columns per
    (age_group, occupation) group, keeps the five largest genres of
    every group and inserts one record per group into PostgreSQL.

    Numbers are integers ([Z]); a missing value (pandas NaN) is [None]. *)

From Stdlib Require Import ZArith List String Ascii Bool Lia.
From Stdlib Require Import Permutation Sorted OrdersEx RelationClasses.
Import ListNotations.

Open Scope string_scope.
Open Scope list_scope.
Open Scope Z_scope.

(** ** Values, cells and errors *)

(** A value held by a DataFrame cell: an integer or a string.  Floating
    point and boolean values are not modelled. *)
Inductive field : Type :=
| Int (z : Z)
| Text (s : string).

(** A cell of a DataFrame; [None] is NaN. *)
Definition cell : Type := option field.

Definition field_eqb (a b : field) : bool :=
  match a, b with
  | Int x, Int y => (x =? y)%Z
  | Text s, Text t => String.eqb s t
  | _, _ => false
  end.

(** Key comparison of [DataFrame.merge]: equal values match, and so do two
    missing keys. *)
Definition cell_eqb (a b : cell) : bool :=
  match a, b with
  | Some x, Some y => field_eqb x y
  | None, None => true
  | _, _ => false
  end.

(** The failures of a run: the exception [pd.read_csv] raises on a source it
    cannot load, the ValueError of [merge] on key columns of different
    kinds, the TypeError of [pd.cut] on a column holding strings, and the
    exception psycopg2 raises on a connection or statement failure. *)
Inductive error : Type :=
| DataSourceError
| ValueError
| TypeError
| PersistenceError.

Inductive result (A : Type) : Type :=
| Ok (a : A)
| Raise (e : error).
Arguments Ok {A} a.
Arguments Raise {A} e.

Definition bind {A B : Type} (r : result A) (k : A -> result B) : result B :=
  match r with
  | Ok a => k a
  | Raise e => Raise e
  end.

Notation "x <- c ;; k" := (bind c (fun x => k))
  (at level 61, c at next level, right associativity).

(** ** Loader: [pd.read_csv(path, sep=..., names=..., header=None)] *)

(** A source is unreadable ([None]) or a sequence of lines, each given as
    the list of its delimiter-separated fields (a field is its text). *)
Definition source : Type := option (list (list string)).

Definition DataFrame : Type := list (list cell).

Fixpoint all_chars (p : ascii -> bool) (s : string) : bool :=
  match s with
  | EmptyString => true
  | String c t => p c && all_chars p t
  end.

Definition is_space (c : ascii) : bool :=
  (nat_of_ascii c =? 32)%nat || (nat_of_ascii c =? 9)%nat.

(** Lines that are empty or hold only spaces and tabs are skipped
    ([skip_blank_lines] is on by default). *)
Definition blank (line : list string) : bool :=
  match line with
  | [] => true
  | [f] => all_chars is_space f
  | _ => false
  end.

(** The records of a source: its lines that are not blank. *)
Definition non_blank (lines : list (list string)) : list (list string) :=
  filter (fun l => negb (blank l)) lines.

(** The strings read as NaN by default, besides the empty field. *)
Definition na_values : list string :=
  ["-1.#IND"; "1.#QNAN"; "1.#IND"; "-1.#QNAN"; "#N/A N/A"; "#N/A"; "N/A";
   "n/a"; "NA"; "<NA>"; "#NA"; "NULL"; "null"; "NaN"; "-NaN"; "nan"; "-nan";
   "None"].

Definition is_na (f : string) : bool :=
  match f with
  | EmptyString => true
  | _ => existsb (String.eqb f) na_values
  end.

Definition digit (c : ascii) : option Z :=
  let n := Z.of_nat (nat_of_ascii c) in
  if (48 <=? n) && (n <=? 57) then Some (n - 48) else None.

(** White space around a number is ignored. *)
Definition is_white (c : ascii) : bool :=
  let n := nat_of_ascii c in
  (n =? 32)%nat || ((9 <=? n)%nat && (n <=? 13)%nat).

Fixpoint skip_white (s : string) : string :=
  match s with
  | EmptyString => EmptyString
  | String c t => if is_white c then skip_white t else s
  end.

Fixpoint parse_digits (s : string) (acc : Z) : option Z :=
  match s with
  | EmptyString => Some acc
  | String c t =>
      match digit c with
      | Some d => parse_digits t (10 * acc + d)
      | None => if all_chars is_white s then Some acc else None
      end
  end.

Definition parse_unsigned (s : string) : option Z :=
  match s with
  | EmptyString => None
  | String c _ =>
      match digit c with
      | Some _ => parse_digits s 0
      | None => None
      end
  end.

(** An integer literal: an optional sign and at least one digit. *)
Definition parse_int (f : string) : option Z :=
  match skip_white f with
  | EmptyString => None
  | String c t =>
      if (nat_of_ascii c =? 45)%nat then option_map Z.opp (parse_unsigned t)
      else if (nat_of_ascii c =? 43)%nat then parse_unsigned t
      else parse_unsigned (String c t)
  end.

(** A field as tokenized: NaN when empty or one of [na_values]. *)
Definition to_raw (f : string) : option string :=
  if is_na f then None else Some f.

(** A record shorter than the table is completed with NaN on the right. *)
Definition pad (width : nat) (record : list string) : list (option string) :=
  map to_raw record ++ repeat None (width - List.length record).

(** Type inference, column by column: a column whose fields all are integer
    literals (or NaN) holds numbers, any other column holds the fields as
    strings. *)
Definition numeric_column (j : nat) (rows : list (list (option string)))
    : bool :=
  forallb (fun r => match nth j r None with
                    | None => true
                    | Some f => match parse_int f with
                                | Some _ => true
                                | None => false
                                end
                    end) rows.

Definition convert (numeric : bool) (c : option string) : cell :=
  match c with
  | None => None
  | Some f => if numeric then option_map Int (parse_int f) else Some (Text f)
  end.

Definition infer_types (width : nat) (rows : list (list (option string)))
    : DataFrame :=
  map (fun r => map (fun j => convert (numeric_column j rows) (nth j r None))
                    (seq 0 width))
      rows.

(** An unreadable source raises.  The table is as wide as [names], or as
    the first record when that one is wider: its extra leading fields then
    become the index and are not among the named columns.  A later record
    wider than the table is a tokenizing error. *)
Definition read_csv (names : list string) (src : source) : result DataFrame :=
  match src with
  | None => Raise DataSourceError
  | Some lines =>
      let records := non_blank lines in
      let n := List.length names in
      let width := match records with
                   | [] => n
                   | first :: _ => Nat.max n (List.length first)
                   end in
      if forallb (fun r => (List.length r <=? width)%nat) records
      then Ok (map (skipn (width - n))
                   (infer_types width (map (pad width) records)))
      else Raise DataSourceError
  end.

Definition ratings_names : list string :=
  ["user_id"; "item_id"; "rating"; "timestamp"].

Definition movies_names : list string :=
  ["movie_id"; "movie_title"; "release_date"; "video_release_date"; "IMDb_URL";
   "unknown"; "Action"; "Adventure"; "Animation"; "Children's"; "Comedy";
   "Crime"; "Documentary"; "Drama"; "Fantasy"; "Film-Noir"; "Horror";
   "Musical"; "Mystery"; "Romance"; "Sci-Fi"; "Thriller"; "War"; "Western"].

Definition users_names : list string :=
  ["user_id"; "age"; "gender"; "occupation"; "zip_code"].

(** [movies.columns[5:]] *)
Definition genre_columns : list string := skipn 5 movies_names.

(** ** Typed views of the three frames *)

(** Numeric and text readings of a cell. *)
Definition as_num (c : cell) : option Z :=
  match c with
  | Some (Int z) => Some z
  | _ => None
  end.

Definition as_text (c : cell) : option string :=
  match c with
  | Some (Text s) => Some s
  | _ => None
  end.

Definition is_text (c : cell) : bool :=
  match c with
  | Some (Text _) => true
  | _ => false
  end.

(** [pd.to_numeric] reads a string that is a number as that number; a genre
    cell is kept in that reading, so that its strings are the ones that are
    not numbers. *)
Definition numeric_view (c : cell) : cell :=
  match c with
  | Some (Text f) =>
      match parse_int f with
      | Some z => Some (Int z)
      | None => c
      end
  | _ => c
  end.

Definition col (i : nat) (row : list cell) : cell := nth i row None.

Record rating_row : Type := mk_rating {
  r_user_id : cell;
  r_item_id : cell;
  r_rating : cell;
  r_timestamp : cell
}.

(** [movies[['movie_id', 'unknown', ..., 'Western']]] *)
Record movie_row : Type := mk_movie {
  m_movie_id : cell;
  m_genres : list cell
}.

(** [users[['user_id', 'age', 'occupation']]] *)
Record user_row : Type := mk_user {
  u_user_id : cell;
  u_age : cell;
  u_occupation : cell
}.

Definition rating_of (row : list cell) : rating_row :=
  mk_rating (col 0 row) (col 1 row) (col 2 row) (col 3 row).

Definition movie_of (row : list cell) : movie_row :=
  mk_movie (col 0 row) (map numeric_view (skipn 5 row)).

Definition user_of (row : list cell) : user_row :=
  mk_user (col 0 row) (col 1 row) (col 3 row).

(** ** Joiner: [left.merge(right, left_on=..., right_on=...)], how='inner' *)

(** The right rows whose key is [k]. *)
Definition matches {R : Type} (rkey : R -> cell) (k : cell) (right : list R)
    : list R :=
  filter (fun r => cell_eqb k (rkey r)) right.

(** Every left row is paired with every right row carrying the same key, in
    the order of the left rows. *)
Definition join {L R : Type} (lkey : L -> cell) (rkey : R -> cell)
    (left : list L) (right : list R) : list (L * R) :=
  flat_map (fun l => map (pair l) (matches rkey (lkey l) right)) left.

(** Whether a column holds strings (dtype object) rather than numbers. *)
Definition text_dtype (column : list cell) : bool := existsb is_text column.

(** [merge] first compares the kinds of the two key columns, unless one of
    the frames has no row: a column of numbers against a column of strings
    is a ValueError.  [ltext] and [rtext] tell whether the key column of
    each frame holds strings. *)
Definition merge {L R : Type} (lkey : L -> cell) (rkey : R -> cell)
    (ltext rtext : bool) (left : list L) (right : list R)
    : result (list (L * R)) :=
  match left, right with
  | _ :: _, _ :: _ =>
      if Bool.eqb ltext rtext then Ok (join lkey rkey left right)
      else Raise ValueError
  | _, _ => Ok (join lkey rkey left right)
  end.

(** A row of the two merges, before the age groups are computed. *)
Definition joined_row : Type := (rating_row * movie_row * user_row)%type.

(** The user ids of the first merge keep the kind they have in the
    ratings. *)
Definition merge_datasets (ratings : list rating_row) (movies : list movie_row)
    (users : list user_row) : result (list joined_row) :=
  with_movies <- merge r_item_id m_movie_id
                   (text_dtype (map r_item_id ratings))
                   (text_dtype (map m_movie_id movies)) ratings movies ;;
  merge (fun rm => r_user_id (fst rm)) u_user_id
    (text_dtype (map r_user_id ratings))
    (text_dtype (map u_user_id users)) with_movies users.

(** The interaction of a joined row. *)
Definition interaction (p : joined_row) : rating_row := fst (fst p).

(** The rows the two merges give when neither raises. *)
Definition join_datasets (ratings : list rating_row)
    (movies : list movie_row) (users : list user_row) : list joined_row :=
  join (fun rm => r_user_id (fst rm)) u_user_id
    (join r_item_id m_movie_id ratings movies) users.

(** A row of [merged_data], with the columns the aggregation reads: the age
    as a number and the occupation as a string. *)
Record merged_row : Type := mk_merged {
  user_id : cell;
  item_id : cell;
  rating : cell;
  timestamp : cell;
  genres : list cell;
  age : option Z;
  occupation : option string
}.

(** The occupation column is read as a column of strings, as it is in the
    data set; a column of numeric occupations is outside this view (see
    [well_formed]). *)
Definition merged_of (p : joined_row) : merged_row :=
  let '(r, m, u) := p in
  mk_merged (r_user_id r) (r_item_id r) (r_rating r) (r_timestamp r)
            (m_genres m) (as_num (u_age u)) (as_text (u_occupation u)).

(** [pd.cut] needs numbers: an age column holding strings is a TypeError. *)
Definition numeric_ages (joined : list joined_row)
    : result (list merged_row) :=
  if existsb (fun p => is_text (u_age (snd p))) joined
  then Raise TypeError
  else Ok (map merged_of joined).

(** An interaction has matches when its item and its user are present. *)
Definition matched (movies : list movie_row) (users : list user_row)
    (r : rating_row) : Prop :=
  In (r_item_id r) (map m_movie_id movies) /\
  In (r_user_id r) (map u_user_id users).

(** ** Aggregator *)

(** *** Age groups: [pd.cut(age, bins=age_bins, labels=age_labels, right=False)] *)

Inductive bound : Type :=
| Finite (z : Z)
| Infinity.

Definition age_bins : list bound :=
  [Finite 0; Finite 20; Finite 25; Finite 35; Finite 45; Infinity].

Definition age_labels : list string :=
  ["<20"; "20-25"; "25-35"; "35-45"; "45+"].

Definition bound_leb (b : bound) (x : Z) : bool :=
  match b with
  | Finite z => (z <=? x)%Z
  | Infinity => false
  end.

(** [bins.searchsorted(x, side='right')] on increasing bins: the number of
    leading bins that are at most [x]. *)
Fixpoint searchsorted_right (bins : list bound) (x : Z) : nat :=
  match bins with
  | [] => O
  | b :: rest => if bound_leb b x then S (searchsorted_right rest x) else O
  end.

(** With [right=False] the intervals are closed on the left; a value before
    the first edge or not before the last one gets no label. *)
Definition cut (x : option Z) (bins : list bound) (labels : list string)
    : option string :=
  match x with
  | None => None
  | Some a =>
      let ids := searchsorted_right bins a in
      if (ids =? 0)%nat || (ids =? List.length bins)%nat then None
      else nth_error labels (ids - 1)
  end.

(** *** Numeric genre columns:
    [apply(pd.to_numeric, errors='coerce').fillna(0)] *)

Definition to_numeric_coerce (c : cell) : option Z := as_num c.

Definition fillna (d : Z) (o : option Z) : Z :=
  match o with
  | Some z => z
  | None => d
  end.

(** A row of [merged_data] once [age_group] is added and the genre columns
    are numeric. *)
Record row : Type := mk_row {
  age_group : option string;
  row_occupation : option string;
  flags : list Z
}.

Definition prepare (m : merged_row) : row :=
  mk_row (cut (age m) age_bins age_labels)
         (occupation m)
         (map (fun c => fillna 0 (to_numeric_coerce c)) (genres m)).

(** *** Grouping: [groupby(['age_group', 'occupation'], observed=False)
    [genre_columns].sum()] *)

(** Sorted distinct values of a text column (the level of a non-categorical
    grouper); strings are compared character by character. *)
Fixpoint insert_level (s : string) (l : list string) : list string :=
  match l with
  | [] => [s]
  | x :: t =>
      match String_as_OT.compare s x with
      | Lt => s :: l
      | Eq => l
      | Gt => x :: insert_level s t
      end
  end.

Definition dropna {A : Type} (l : list (option A)) : list A :=
  flat_map (fun o => match o with Some a => [a] | None => [] end) l.

Definition levels (column : list (option string)) : list string :=
  fold_right insert_level [] (dropna column).

Definition option_eqb (o : option string) (s : string) : bool :=
  match o with
  | Some t => String.eqb t s
  | None => false
  end.

(** Rows with a missing key belong to no group. *)
Definition in_group (b o : string) (r : row) : bool :=
  option_eqb (age_group r) b && option_eqb (row_occupation r) o.

Definition column_sum (j : nat) (rows : list row) : Z :=
  fold_right Z.add 0 (map (fun r => nth j (flags r) 0) rows).

Definition group_sum (rows : list row) (b o : string) : list Z :=
  map (fun j => column_sum j (filter (in_group b o) rows))
      (seq 0 (List.length genre_columns)).

(** [age_group] is categorical and [observed=False]: the result is indexed
    by every category of [age_group] crossed with every occupation present,
    sorted by category then by occupation; a combination without rows sums
    to zero. *)
Definition genre_summary (rows : list row)
    : list (string * string * list Z) :=
  flat_map
    (fun b => map (fun o => (b, o, group_sum rows b o))
                  (levels (map row_occupation rows)))
    age_labels.

(** *** Top genres: [x.nlargest(5).index.tolist()] *)

(** Stable insertion by decreasing value: among equal values the entry met
    first in the Series stays first (keep='first'). *)
Fixpoint insert_desc (x : string * Z) (l : list (string * Z))
    : list (string * Z) :=
  match l with
  | [] => [x]
  | y :: t => if (snd y <=? snd x)%Z then x :: l else y :: insert_desc x t
  end.

Definition sort_desc (s : list (string * Z)) : list (string * Z) :=
  fold_right insert_desc [] s.

Definition nlargest (n : nat) (s : list (string * Z)) : list (string * Z) :=
  firstn n (sort_desc s).

Definition top_genres (sums : list Z) : list string :=
  map fst (nlargest 5 (combine genre_columns sums)).

(** A row of [top_genres_df]. *)
Record top_row : Type := mk_top {
  t_age_group : string;
  t_occupation : string;
  t_top_genres : list string
}.

Definition top_genres_df (rows : list row) : list top_row :=
  map (fun g => mk_top (fst (fst g)) (snd (fst g)) (top_genres (snd g)))
      (genre_summary rows).

Definition aggregate (merged_data : list merged_row) : list top_row :=
  top_genres_df (map prepare merged_data).

(** ** Persister: [save_to_postgres] *)

(** A record of the destination table (its serial [id] is left out). *)
Record pg_record : Type := mk_pg {
  pg_age_group : string;
  pg_occupation : string;
  pg_top_genres : string
}.

Definition table : Type := list pg_record.

(** A database maps a table name to its records, if the table exists. *)
Definition database : Type := string -> option table.

Definition set_table (t : string) (rows : table) (db : database) : database :=
  fun t' => if String.eqb t' t then Some rows else db t'.

Inductive statement : Type :=
| CreateTableIfNotExists (t : string)
| InsertInto (t : string) (r : pg_record).

(** Effect of a statement on the data seen by the session; [None] when the
    statement cannot run (insertion into a table that does not exist). *)
Definition run_statement (s : statement) (db : database) : option database :=
  match s with
  | CreateTableIfNotExists t =>
      match db t with
      | Some _ => Some db
      | None => Some (set_table t [] db)
      end
  | InsertInto t r =>
      match db t with
      | Some rows => Some (set_table t (rows ++ [r]) db)
      | None => None
      end
  end.

(** The server side, seen from the operator: whether it accepts the
    connection, and which statements it refuses (lost connection, constraint
    violation), given how many statements the session has already sent. *)
Record server : Type := mk_server {
  refuses_connection : bool;
  rejects : nat -> statement -> bool
}.

(** A psycopg2 connection (autocommit off): [durable] is the committed
    database, [session] the data as changed by the open transaction, [sent]
    the statements passed to the server so far. *)
Record connection : Type := mk_conn {
  durable : database;
  session : database;
  sent : list statement
}.

(** Actions on a connection that may raise. *)
Definition action (A : Type) : Type := connection -> result A * connection.

Definition ret {A : Type} (a : A) : action A := fun c => (Ok a, c).

Definition and_then {A B : Type} (m : action A) (k : A -> action B)
    : action B :=
  fun c =>
    match m c with
    | (Ok a, c') => k a c'
    | (Raise e, c') => (Raise e, c')
    end.

Notation "m >> k" := (and_then m (fun _ => k))
  (at level 62, right associativity).

Definition connect (db : database) : connection := mk_conn db db [].

Definition cursor_execute (sv : server) (s : statement) : action unit :=
  fun c =>
    let c' := mk_conn (durable c) (session c) (sent c ++ [s]) in
    if rejects sv (List.length (sent c)) s then (Raise PersistenceError, c')
    else
      match run_statement s (session c) with
      | Some db' => (Ok tt, mk_conn (durable c) db' (sent c ++ [s]))
      | None => (Raise PersistenceError, c')
      end.

Definition commit : action unit :=
  fun c => (Ok tt, mk_conn (session c) (session c) (sent c)).

Definition dquote : string := String (ascii_of_nat 34) EmptyString.

(** ["{" + ", ".join(f'"{genre}"' for genre in row['top_genres']) + "}"] *)
Definition genres_array (top : list string) : string :=
  ("{" ++ String.concat ", " (map (fun genre => dquote ++ genre ++ dquote) top)
       ++ "}")%string.

Definition record_of (r : top_row) : pg_record :=
  mk_pg (t_age_group r) (t_occupation r) (genres_array (t_top_genres r)).

(** [for _, row in df.iterrows(): cursor.execute("INSERT ...")] *)
Fixpoint insert_rows (sv : server) (table_name : string) (df : list top_row)
    : action unit :=
  match df with
  | [] => ret tt
  | r :: rest =>
      cursor_execute sv (InsertInto table_name (record_of r)) >>
      insert_rows sv table_name rest
  end.

(** The connection is returned as the call leaves it.  What the database
    keeps is its [durable] part: a transaction still open when an exception
    leaves the method is never committed. *)
Definition save_to_postgres (sv : server) (table_name : string)
    (df : list top_row) (db : database) : result unit * connection :=
  if refuses_connection sv then (Raise PersistenceError, connect db)
  else
    (cursor_execute sv (CreateTableIfNotExists table_name) >>
     insert_rows sv table_name df >>
     commit) (connect db).

(** ** The operator: [execute] *)

(** The three paths of the [Paths] section of the configuration, each with
    the content found there. *)
Record paths : Type := mk_paths {
  ratings_data_path : source;
  movies_data_path : source;
  user_data_path : source
}.

Definition load_and_merge (config : paths) : result (list merged_row) :=
  ratings <- read_csv ratings_names (ratings_data_path config) ;;
  movies <- read_csv movies_names (movies_data_path config) ;;
  users <- read_csv users_names (user_data_path config) ;;
  joined <- merge_datasets (map rating_of ratings) (map movie_of movies)
              (map user_of users) ;;
  numeric_ages joined.

(** Result of the run and the database it leaves. *)
Definition execute (config : paths) (sv : server) (db : database)
    : result unit * database :=
  match load_and_merge config with
  | Raise e => (Raise e, db)
  | Ok merged_data =>
      let (r, c) := save_to_postgres sv "top_genres" (aggregate merged_data) db in
      (r, durable c)
  end.

(** ** The scenario of the specification *)

(** One interaction (rating 5), one item flagged Comedy only, one actor aged
    22 working as an engineer. *)
Definition scenario_movie : list string :=
  ["1"; "Some Movie (1995)"; "01-Jan-1995"; "-"; "http://example.org/1"]
  ++ ["0"; "0"; "0"; "0"; "0"; "1"; "0"; "0"; "0"; "0";
      "0"; "0"; "0"; "0"; "0"; "0"; "0"; "0"; "0"].

Definition scenario : paths :=
  mk_paths (Some [["1"; "1"; "5"; "881250949"]])
           (Some [scenario_movie])
           (Some [["1"; "22"; "M"; "engineer"; "85711"]]).

Definition merged_data_of (config : paths) : list merged_row :=
  match load_and_merge config with
  | Ok merged_data => merged_data
  | Raise _ => []
  end.

Definition scenario_merged : list merged_row := merged_data_of scenario.

Definition empty_database : database := fun _ => None.

Definition reliable_server : server := mk_server false (fun _ _ => false).

(** A server that refuses the third statement of a session, that is the
    second insertion. *)
Definition failing_server : server :=
  mk_server false (fun n _ => Nat.eqb n 2).

(** The scenario with a second, identical record for the same movie. *)
Definition duplicated_movie : paths :=
  mk_paths (ratings_data_path scenario)
           (Some [scenario_movie; scenario_movie])
           (user_data_path scenario).

(** The scenario where the user id of the user record is not a number. *)
Definition text_user_id : paths :=
  mk_paths (ratings_data_path scenario)
           (movies_data_path scenario)
           (Some [["u1"; "22"; "M"; "engineer"; "85711"]]).

(** The scenario with a user record that lacks its last field. *)
Definition short_user_record : paths :=
  mk_paths (ratings_data_path scenario)
           (movies_data_path scenario)
           (Some [["1"; "22"; "M"; "engineer"]]).

(** The scenario with one more interaction, by a user aged -3. *)
Definition negative_age : paths :=
  mk_paths (Some [["1"; "1"; "5"; "881250949"];
                  ["2"; "1"; "4"; "881250950"]])
           (movies_data_path scenario)
           (Some [["1"; "22"; "M"; "engineer"; "85711"];
                  ["2"; "-3"; "F"; "engineer"; "94043"]]).

Definition frame_of (src : source) (names : list string) : DataFrame :=
  match read_csv names src with
  | Ok frame => frame
  | Raise _ => []
  end.

Definition ratings_of (config : paths) : list rating_row :=
  map rating_of (frame_of (ratings_data_path config) ratings_names).

Definition movies_of (config : paths) : list movie_row :=
  map movie_of (frame_of (movies_data_path config) movies_names).

Definition users_of (config : paths) : list user_row :=
  map user_of (frame_of (user_data_path config) users_names).

(** ** Notions used in the statements *)

(** The order in which the occupation levels are sorted. *)
Definition slt : string -> string -> Prop := String_as_OT.lt.

(** Position of a name in a list of column names. *)
Fixpoint index_of (g : string) (names : list string) : nat :=
  match names with
  | [] => O
  | x :: t => if String.eqb x g then O else S (index_of g t)
  end.

(** The summed value of genre [g] in a vector of sums. *)
Definition score (sums : list Z) (g : string) : Z :=
  nth (index_of g genre_columns) sums 0.

(** [g] comes before [h]: a larger sum, or the same sum and an earlier
    column. *)
Definition ranks_before (sums : list Z) (g h : string) : Prop :=
  score sums h < score sums g \/
  (score sums g = score sums h /\
   (index_of g genre_columns < index_of h genre_columns)%nat).

(** The same order on the entries of a Series indexed by [names]. *)
Definition entry_before (names : list string) (x y : string * Z) : Prop :=
  snd y < snd x \/
  (snd x = snd y /\ (index_of (fst x) names < index_of (fst y) names)%nat).

(** The numeric flag of column [j] of a merged row. *)
Definition flag (j : nat) (m : merged_row) : Z :=
  fillna 0 (to_numeric_coerce (nth j (genres m) None)).

(** The insertions of the write loop, one per row. *)
Definition inserts (table_name : string) (df : list top_row)
    : list statement :=
  map (fun r => InsertInto table_name (record_of r)) df.

(** The statements [save_to_postgres] sends when nothing fails (before the
    commit). *)
Definition script (table_name : string) (df : list top_row)
    : list statement :=
  CreateTableIfNotExists table_name :: inserts table_name df.

Definition rows_of (o : option table) : table :=
  match o with
  | Some rows => rows
  | None => []
  end.

Definition unreadable (config : paths) : Prop :=
  ratings_data_path config = None \/
  movies_data_path config = None \/
  user_data_path config = None.

(** ** Further notions used in the statements *)

Definition has_key {R : Type} (rkey : R -> cell) (k : cell) (right : list R)
    : bool :=
  existsb (fun r => cell_eqb k (rkey r)) right.

(** [matched], as a test. *)
Definition matchedb (movies : list movie_row) (users : list user_row)
    (r : rating_row) : bool :=
  has_key m_movie_id (r_item_id r) movies
  && has_key u_user_id (r_user_id r) users.

Definition is_int (c : cell) : bool :=
  match c with
  | Some (Int _) => true
  | _ => false
  end.

(** A column as [read_csv] types it: when it holds a string, it holds no
    number. *)
Definition homogeneous (column : list cell) : Prop :=
  text_dtype column = true -> existsb is_int column = false.

(** The key columns of the three frames are typed column by column. *)
Definition typed_keys (ratings : list rating_row) (movies : list movie_row)
    (users : list user_row) : Prop :=
  homogeneous (map r_item_id ratings) /\
  homogeneous (map m_movie_id movies) /\
  homogeneous (map r_user_id ratings) /\
  homogeneous (map u_user_id users).

(** The two key columns of each merge are of the same kind: numbers with
    numbers, strings with strings. *)
Definition same_kinds (ratings : list rating_row) (movies : list movie_row)
    (users : list user_row) : Prop :=
  text_dtype (map r_item_id ratings) = text_dtype (map m_movie_id movies) /\
  text_dtype (map r_user_id ratings) = text_dtype (map u_user_id users).

(** A server that accepts the connection and refuses no statement. *)
Definition reliable (sv : server) : Prop :=
  refuses_connection sv = false /\ forall n s, rejects sv n s = false.

Fixpoint has_char (c : ascii) (s : string) : bool :=
  match s with
  | EmptyString => false
  | String a t => Ascii.eqb a c || has_char c t
  end.

(** A name without a double quote. *)
Definition quote_free (g : string) : Prop :=
  has_char (ascii_of_nat 34) g = false.


(** The scenario with a second interaction of the same user. *)
Definition scenario_twice : paths :=
  mk_paths (Some [["1"; "1"; "5"; "881250949"];
                  ["1"; "1"; "3"; "881250950"]])
           (movies_data_path scenario)
           (user_data_path scenario).

(** The scenario where the interaction refers to a movie that is not
    recorded. *)
Definition unknown_movie : paths :=
  mk_paths (Some [["1"; "7"; "5"; "881250949"]])
           (movies_data_path scenario)
           (user_data_path scenario).

(** The scenario where the only user is aged -3 and is an artist, and the
    same sources without the interaction. *)
Definition negative_artist : paths :=
  mk_paths (ratings_data_path scenario)
           (movies_data_path scenario)
           (Some [["1"; "-3"; "F"; "artist"; "94043"]]).

Definition no_interaction : paths :=
  mk_paths (Some [])
           (movies_data_path scenario)
           (user_data_path negative_artist).

(** A row that has both grouping keys. *)
Definition grouped (r : row) : bool :=
  match age_group r, row_occupation r with
  | Some _, Some _ => true
  | _, _ => false
  end.

Definition zsum (l : list Z) : Z := fold_right Z.add 0 l.

(** The flags of a joined row are indicators: 0 or 1 in every column. *)
Definition indicator_flags (m : merged_row) : Prop :=
  forall j, flag j m = 0 \/ flag j m = 1.

(** The joined rows of the pair ([b], [o]): those whose age falls in the
    interval labelled [b] and whose occupation is [o]. *)
Definition member (b o : string) (m : merged_row) : bool :=
  match cut (age m) age_bins age_labels, occupation m with
  | Some b', Some o' => String.eqb b' b && String.eqb o' o
  | _, _ => false
  end.

(** The sums are small enough to be computed without loss, in 64-bit
    integers as in double precision: in every genre column the absolute
    values of the flags add up to less than 2^53. *)
Definition exact_sums (merged_data : list merged_row) : Prop :=
  forall j, zsum (map (fun m => Z.abs (flag j m)) merged_data) < 2 ^ 53.

(** Addition of 64-bit integers, which wraps around, and the sum it gives
    when the values are added one after the other. *)
Definition wrap64 (x : Z) : Z := (x + 2 ^ 63) mod 2 ^ 64 - 2 ^ 63.

Definition sum64 (l : list Z) : Z :=
  fold_left (fun acc x => wrap64 (acc + x)) l 0.

(** Two joined rows that differ at most in the rating. *)
Definition same_but_rating (m m' : merged_row) : Prop :=
  user_id m = user_id m' /\ item_id m = item_id m' /\
  timestamp m = timestamp m' /\ genres m = genres m' /\
  age m = age m' /\ occupation m = occupation m'.

(** [ranks_before], as a test. *)
Definition ranks_beforeb (sums : list Z) (g h : string) : bool :=
  (score sums h <? score sums g)
  || ((score sums g =? score sums h)
      && (index_of g genre_columns <? index_of h genre_columns)%nat).

(** The number of genre columns that come before [g]. *)
Definition rank (sums : list Z) (g : string) : nat :=
  List.length (filter (fun h => ranks_beforeb sums h g) genre_columns).

(** Field [i] of a record is missing when the record is too short to have
    it, or when it is empty or one of [na_values]. *)
Definition missing (record : list string) (i : nat) : bool :=
  match nth_error record i with
  | None => true
  | Some f => is_na f
  end.

(** A test for [exact_sums] on joined rows with at most [n] genre cells. *)
Definition small_columns (n : nat) (merged_data : list merged_row) : bool :=
  forallb (fun m => (List.length (genres m) <=? n)%nat) merged_data
  && forallb (fun j => zsum (map (fun m => Z.abs (flag j m)) merged_data)
                       <? 2 ^ 53)
             (seq 0 n).

(** A field of a column of numbers: NaN, or an integer literal that is
    exactly representable in double precision as well. *)
Definition int_field (f : string) : bool :=
  is_na f
  || match parse_int f with
     | Some z => Z.abs z <? 2 ^ 53
     | None => false
     end.

Definition lower_case (c : ascii) : bool :=
  (97 <=? nat_of_ascii c)%nat && (nat_of_ascii c <=? 122)%nat.

(** A field of a column of words: NaN, or lower-case letters that spell
    neither a number nor a truth value. *)
Definition word_field (f : string) : bool :=
  is_na f
  || (all_chars lower_case f
      && negb (existsb (String.eqb f) ["inf"; "infinity"; "true"; "false"])).

(** Sources in the format of the data set: the three files are readable, no
    record is wider than the names of its file, the identifiers, the ages
    and the genre flags are integers and the occupations are words (any of
    them may be missing).  The other columns are free. *)
Definition well_formed (config : paths) : bool :=
  match ratings_data_path config, movies_data_path config,
        user_data_path config with
  | Some ratings, Some movies, Some users =>
      forallb (fun r => (List.length r <=? List.length ratings_names)%nat
                        && int_field (nth 0 r EmptyString)
                        && int_field (nth 1 r EmptyString))
              (non_blank ratings)
      && forallb (fun r => (List.length r <=? List.length movies_names)%nat
                           && int_field (nth 0 r EmptyString)
                           && forallb int_field (skipn 5 r))
                 (non_blank movies)
      && forallb (fun r => (List.length r <=? List.length users_names)%nat
                           && int_field (nth 0 r EmptyString)
                           && int_field (nth 1 r EmptyString)
                           && word_field (nth 3 r EmptyString))
                 (non_blank users)
  | _, _, _ => false
  end.

(** Two sources with the same lines, possibly in another order. *)
Definition same_records (s s' : source) : Prop :=
  match s, s' with
  | Some l, Some l' => Permutation l l'
  | None, None => True
  | _, _ => False
  end.

Definition reordered (config config' : paths) : Prop :=
  same_records (ratings_data_path config) (ratings_data_path config') /\
  same_records (movies_data_path config) (movies_data_path config') /\
  same_records (user_data_path config) (user_data_path config').

(** [scenario_twice] with its two interactions listed backwards. *)
Definition scenario_shuffled : paths :=
  mk_paths (Some [["1"; "1"; "3"; "881250950"];
                  ["1"; "1"; "5"; "881250949"]])
           (movies_data_path scenario)
           (user_data_path scenario).

(** The scenario where the age of the user is not a number. *)
Definition text_age : paths :=
  mk_paths (ratings_data_path scenario)
           (movies_data_path scenario)
           (Some [["1"; "young"; "M"; "engineer"; "85711"]]).

(** * Properties *)

(** ** Age groups *)

Lemma cut_age_value (a : Z) :
  cut (Some a) age_bins age_labels =
    if a <? 0 then None
    else if a <? 20 then Some "<20"
    else if a <? 25 then Some "20-25"
    else if a <? 35 then Some "25-35"
    else if a <? 45 then Some "35-45"
    else Some "45+".
Proof.
  unfold cut, age_bins, age_labels, searchsorted_right, bound_leb.
  destruct (Z.ltb_spec a 0); destruct (Z.leb_spec 0 a); try lia; [reflexivity|].
  destruct (Z.ltb_spec a 20); destruct (Z.leb_spec 20 a); try lia; [reflexivity|].
  destruct (Z.ltb_spec a 25); destruct (Z.leb_spec 25 a); try lia; [reflexivity|].
  destruct (Z.ltb_spec a 35); destruct (Z.leb_spec 35 a); try lia; [reflexivity|].
  destruct (Z.ltb_spec a 45); destruct (Z.leb_spec 45 a); try lia; reflexivity.
Qed.

Ltac split_age a :=
  rewrite (cut_age_value a);
  destruct (Z.ltb_spec a 0); [|
  destruct (Z.ltb_spec a 20); [|
  destruct (Z.ltb_spec a 25); [|
  destruct (Z.ltb_spec a 35); [|
  destruct (Z.ltb_spec a 45)]]]].

(** C5: every non-negative age gets exactly one label, the one of the
    left-closed interval it lies in: [0,20) is "<20", [20,25) is "20-25",
    [25,35) is "25-35", [35,45) is "35-45" and [45,oo) is "45+". *)
Theorem cut_partitions_nonnegative_ages (a : Z) (Ha : 0 <= a) :
  (cut (Some a) age_bins age_labels = Some "<20" <-> 0 <= a < 20) /\
  (cut (Some a) age_bins age_labels = Some "20-25" <-> 20 <= a < 25) /\
  (cut (Some a) age_bins age_labels = Some "25-35" <-> 25 <= a < 35) /\
  (cut (Some a) age_bins age_labels = Some "35-45" <-> 35 <= a < 45) /\
  (cut (Some a) age_bins age_labels = Some "45+" <-> 45 <= a) /\
  exists! l, In l age_labels /\ cut (Some a) age_bins age_labels = Some l.
Proof.
  split_age a; try lia.
  all: repeat split; try lia; try discriminate; try reflexivity.
  all: try (eexists; split; [split; [|reflexivity]; simpl; tauto|]).
  all: try (intros l' [_ E]; congruence).
  all: intro E; exfalso; lia.
Qed.

Lemma cut_partitions_nonnegative_ages_witness :
  0 <= 22 /\ cut (Some 22) age_bins age_labels = Some "20-25".
Proof.
  split; [lia|].
  apply (cut_partitions_nonnegative_ages 22); lia.
Defined.

(** ** Joins *)

Lemma field_eqb_eq (a b : field) : field_eqb a b = true <-> a = b.
Proof.
  destruct a, b; simpl; split; intro E; try discriminate.
  - apply Z.eqb_eq in E. now subst.
  - inversion E. apply Z.eqb_refl.
  - apply String.eqb_eq in E. now subst.
  - inversion E. apply String.eqb_refl.
Qed.

Lemma cell_eqb_eq (a b : cell) : cell_eqb a b = true <-> a = b.
Proof.
  destruct a, b; simpl; split; intro E; try discriminate; try reflexivity.
  - apply field_eqb_eq in E. now subst.
  - inversion E. now apply field_eqb_eq.
Qed.

Section Matches.
Context {R : Type} (rkey : R -> cell).

Lemma matches_none (k : cell) (right : list R) :
  ~ In k (map rkey right) -> matches rkey k right = [].
Proof.
  induction right as [|x right IH]; simpl; intro H; [reflexivity|].
  destruct (cell_eqb k (rkey x)) eqn:E.
  - apply cell_eqb_eq in E. exfalso. apply H. now left.
  - apply IH. intro F. apply H. now right.
Qed.

Lemma matches_some (k : cell) (right : list R) :
  In k (map rkey right) -> (1 <= List.length (matches rkey k right))%nat.
Proof.
  induction right as [|x right IH]; simpl; intro H; [contradiction|].
  destruct (cell_eqb k (rkey x)) eqn:E; simpl; [lia|].
  destruct H as [H|H]; [|now apply IH].
  symmetry in H. apply cell_eqb_eq in H. congruence.
Qed.

Lemma matches_unique (k : cell) (right : list R) :
  NoDup (map rkey right) -> (List.length (matches rkey k right) <= 1)%nat.
Proof.
  induction right as [|x right IH]; simpl; intro H; [lia|].
  inversion H as [|? ? Hx Hr]; subst.
  destruct (cell_eqb k (rkey x)) eqn:E; [|now apply IH].
  apply cell_eqb_eq in E. subst k.
  simpl. fold (matches rkey (rkey x) right).
  rewrite (matches_none _ _ Hx). simpl. lia.
Qed.

Lemma matches_found (k : cell) (right : list R) :
  (1 <= List.length (matches rkey k right))%nat -> In k (map rkey right).
Proof.
  destruct (matches rkey k right) as [|x rest] eqn:E; simpl; [lia|].
  intros _.
  assert (Hx : In x (matches rkey k right)) by (rewrite E; now left).
  apply filter_In in Hx. destruct Hx as [Hx Hk].
  apply cell_eqb_eq in Hk. subst k. now apply in_map.
Qed.
End Matches.

Lemma join_app {L R : Type} (lkey : L -> cell) (rkey : R -> cell)
    (l1 l2 : list L) (right : list R) :
  join lkey rkey (l1 ++ l2) right
  = join lkey rkey l1 right ++ join lkey rkey l2 right.
Proof. unfold join. apply flat_map_app. Qed.

Lemma join_datasets_app (r1 r2 : list rating_row) (movies : list movie_row)
    (users : list user_row) :
  join_datasets (r1 ++ r2) movies users
  = join_datasets r1 movies users ++ join_datasets r2 movies users.
Proof. unfold join_datasets. now rewrite !join_app. Qed.

Lemma join_users_length (r : rating_row) (ms : list movie_row)
    (users : list user_row) :
  List.length (join (fun rm => r_user_id (fst rm)) u_user_id
                 (map (pair r) ms) users)
  = (List.length ms
     * List.length (matches u_user_id (r_user_id r) users))%nat.
Proof.
  induction ms as [|m ms IH]; [reflexivity|].
  change (map (pair r) (m :: ms)) with ([(r, m)] ++ map (pair r) ms).
  rewrite join_app, length_app, IH. unfold join at 1. simpl.
  rewrite app_nil_r, length_map. lia.
Qed.

(** The rows one interaction gives: one per matching movie and matching
    user. *)
Lemma join_datasets_one_length (r : rating_row) (movies : list movie_row)
    (users : list user_row) :
  List.length (join_datasets [r] movies users)
  = (List.length (matches m_movie_id (r_item_id r) movies)
     * List.length (matches u_user_id (r_user_id r) users))%nat.
Proof.
  unfold join_datasets. unfold join at 2. simpl. rewrite app_nil_r.
  apply join_users_length.
Qed.

Lemma has_key_in {R : Type} (rkey : R -> cell) (k : cell) (right : list R) :
  has_key rkey k right = true <-> In k (map rkey right).
Proof.
  unfold has_key. rewrite existsb_exists, in_map_iff. split.
  - intros [r [Hr K]]. apply cell_eqb_eq in K. now exists r.
  - intros [r [K Hr]]. exists r. split; [exact Hr|]. now apply cell_eqb_eq.
Qed.

Lemma matchedb_matched (movies : list movie_row) (users : list user_row)
    (r : rating_row) :
  matchedb movies users r = true <-> matched movies users r.
Proof.
  unfold matchedb, matched. now rewrite andb_true_iff, !has_key_in.
Qed.

Lemma unmatched_gives_no_row (r : rating_row) (movies : list movie_row)
    (users : list user_row) :
  matchedb movies users r = false -> join_datasets [r] movies users = [].
Proof.
  intro H. apply length_zero_iff_nil. rewrite join_datasets_one_length.
  unfold matchedb in H. apply andb_false_iff in H. destruct H as [H|H].
  - rewrite matches_none; [reflexivity|].
    intro F. apply has_key_in in F. congruence.
  - rewrite (matches_none u_user_id); [apply Nat.mul_0_r|].
    intro F. apply has_key_in in F. congruence.
Qed.

Lemma in_join {L R : Type} (lkey : L -> cell) (rkey : R -> cell)
    (left : list L) (right : list R) (l : L) (r : R) :
  In (l, r) (join lkey rkey left right)
  <-> In l left /\ In r right /\ lkey l = rkey r.
Proof.
  unfold join, matches. rewrite in_flat_map. split.
  - intros [l' [Hl H]]. apply in_map_iff in H. destruct H as [r' [E H]].
    inversion E; subst. apply filter_In in H. destruct H as [Hr K].
    apply cell_eqb_eq in K. auto.
  - intros [Hl [Hr K]]. exists l. split; [exact Hl|].
    apply in_map. apply filter_In. split; [exact Hr|].
    now apply cell_eqb_eq.
Qed.

Lemma in_join_datasets (ratings : list rating_row) (movies : list movie_row)
    (users : list user_row) (r : rating_row) (m : movie_row) (u : user_row) :
  In (r, m, u) (join_datasets ratings movies users)
  <-> In r ratings /\ In m movies /\ In u users /\
      r_item_id r = m_movie_id m /\ r_user_id r = u_user_id u.
Proof.
  unfold join_datasets. rewrite in_join, in_join. simpl. tauto.
Qed.

(** With keys that occur once, the interactions of the joined rows are the
    matched interactions, in order. *)
Lemma join_datasets_unique_keys (ratings : list rating_row)
    (movies : list movie_row) (users : list user_row) :
  NoDup (map m_movie_id movies) -> NoDup (map u_user_id users) ->
  map interaction (join_datasets ratings movies users)
  = filter (matchedb movies users) ratings.
Proof.
  intros Hm Hu. induction ratings as [|r rs IH]; [reflexivity|].
  change (r :: rs) with ([r] ++ rs).
  rewrite join_datasets_app, map_app, IH. simpl.
  destruct (matchedb movies users r) eqn:E.
  - pose proof E as E'. apply matchedb_matched in E'. destruct E' as [Em Eu].
    pose proof (join_datasets_one_length r movies users) as L.
    pose proof (matches_unique m_movie_id (r_item_id r) movies Hm).
    pose proof (matches_unique u_user_id (r_user_id r) users Hu).
    pose proof (matches_some m_movie_id _ _ Em).
    pose proof (matches_some u_user_id _ _ Eu).
    destruct (join_datasets [r] movies users) as [|[[r' m] u] [|y rest]]
      eqn:M; simpl in L; try nia.
    assert (Hx : In (r', m, u) (join_datasets [r] movies users))
      by (rewrite M; now left).
    apply in_join_datasets in Hx. destruct Hx as [[<-|[]] _]. reflexivity.
  - now rewrite unmatched_gives_no_row.
Qed.

Lemma merge_ok {L R : Type} (lkey : L -> cell) (rkey : R -> cell)
    (ltext rtext : bool) (left : list L) (right : list R)
    (rows : list (L * R)) :
  merge lkey rkey ltext rtext left right = Ok rows ->
  rows = join lkey rkey left right.
Proof.
  unfold merge. destruct left, right; try (now intros [= <-]).
  destruct (Bool.eqb ltext rtext); [now intros [= <-]|discriminate].
Qed.

Lemma merge_same_kind {L R : Type} (lkey : L -> cell) (rkey : R -> cell)
    (ltext rtext : bool) (left : list L) (right : list R) :
  ltext = rtext ->
  merge lkey rkey ltext rtext left right = Ok (join lkey rkey left right).
Proof.
  intros ->. unfold merge. rewrite Bool.eqb_reflx. now destruct left, right.
Qed.

Lemma merge_datasets_ok (ratings : list rating_row) (movies : list movie_row)
    (users : list user_row) (joined : list joined_row) :
  merge_datasets ratings movies users = Ok joined ->
  joined = join_datasets ratings movies users.
Proof.
  unfold merge_datasets, join_datasets.
  destruct (merge r_item_id m_movie_id _ _ ratings movies) as [m1|e] eqn:E1;
    simpl; [|discriminate].
  apply merge_ok in E1. subst m1. apply merge_ok.
Qed.

Lemma merge_datasets_same_kinds (ratings : list rating_row)
    (movies : list movie_row) (users : list user_row) :
  same_kinds ratings movies users ->
  merge_datasets ratings movies users
  = Ok (join_datasets ratings movies users).
Proof.
  intros [K1 K2]. unfold merge_datasets, join_datasets.
  rewrite (merge_same_kind _ _ _ _ _ _ K1). simpl.
  now apply merge_same_kind.
Qed.

(** Two runs that stop before the aggregation: user ids that are strings
    against user ids that are numbers, and an age that is a string. *)
Lemma text_user_id_is_a_value_error :
  load_and_merge text_user_id = Raise ValueError /\
  execute text_user_id reliable_server empty_database
  = (Raise ValueError, empty_database).
Proof. split; reflexivity. Qed.

Lemma text_age_is_a_type_error :
  load_and_merge text_age = Raise TypeError /\
  execute text_age reliable_server empty_database
  = (Raise TypeError, empty_database).
Proof. split; reflexivity. Qed.

Lemma filter_all_length {A : Type} (f : A -> bool) (l : list A) :
  List.length (filter f l) = List.length l <-> Forall (fun x => f x = true) l.
Proof.
  induction l as [|x l IH]; simpl.
  - split; [constructor|reflexivity].
  - pose proof (filter_length_le f l) as B.
    destruct (f x) eqn:E; simpl; split.
    + intro H. constructor; [exact E|]. apply IH. lia.
    + intro H. inversion H; subst. f_equal. now apply IH.
    + intro H. lia.
    + intro H. inversion H; subst. congruence.
Qed.

(** C6, the claim as stated fails: with the same movie recorded twice, one
    interaction gives two joined rows. *)
Lemma duplicated_movie_gives_two_rows :
  List.length (ratings_of duplicated_movie) = 1%nat /\
  exists joined,
    merge_datasets (ratings_of duplicated_movie) (movies_of duplicated_movie)
      (users_of duplicated_movie) = Ok joined /\
    List.length joined = 2%nat /\
    ~ (List.length joined <= List.length (ratings_of duplicated_movie))%nat.
Proof.
  split; [reflexivity|]. eexists. split; [reflexivity|].
  split; [reflexivity|]. simpl. lia.
Qed.

(** C6, as amended: when no movie id and no user id is recorded twice and
    the key columns compared by each merge are of the same kind (numbers
    with numbers, strings with strings), the two merges raise nothing and
    the joined rows are the interactions that have both their movie and
    their user, each once and in order: they are at most as many as the
    interactions, as many exactly when every interaction has its matches,
    and an interaction without one of them gives no row and no error.  When
    the item ids are numbers on one side and strings on the other, and both
    frames have rows, the merge raises ValueError. *)
Theorem merge_cardinality (ratings : list rating_row)
    (movies : list movie_row) (users : list user_row)
    (Hm : NoDup (map m_movie_id movies)) (Hu : NoDup (map u_user_id users))
    (Ht : typed_keys ratings movies users) :
  (same_kinds ratings movies users ->
   exists joined,
     merge_datasets ratings movies users = Ok joined /\
     map interaction joined = filter (matchedb movies users) ratings /\
     (List.length joined <= List.length ratings)%nat /\
     (List.length joined = List.length ratings
      <-> Forall (matched movies users) ratings) /\
     (forall r, In r ratings -> ~ matched movies users r ->
        ~ In r (map interaction joined))) /\
  (ratings <> [] -> movies <> [] ->
   text_dtype (map r_item_id ratings) <> text_dtype (map m_movie_id movies) ->
   merge_datasets ratings movies users = Raise ValueError).
Proof.
  split.
  - intro K. exists (join_datasets ratings movies users).
    split; [now apply merge_datasets_same_kinds|].
    pose proof (join_datasets_unique_keys ratings movies users Hm Hu) as E.
    split; [exact E|].
    rewrite <- (length_map interaction), E.
    split; [apply filter_length_le|]. split.
    + rewrite filter_all_length, !Forall_forall. split; intros H r Hr.
      * apply matchedb_matched. now apply H.
      * apply matchedb_matched. now apply H.
    + intros r _ N F. apply filter_In in F. destruct F as [_ F].
      apply matchedb_matched in F. contradiction.
  - intros Nr Nm D. unfold merge_datasets, merge.
    destruct ratings as [|r rs]; [contradiction|].
    destruct movies as [|m ms]; [contradiction|].
    destruct (Bool.eqb _ _) eqn:E; [|reflexivity].
    apply Bool.eqb_prop in E. contradiction.
Qed.

Lemma merge_cardinality_witness :
  typed_keys (ratings_of scenario) (movies_of scenario) (users_of scenario) /\
  same_kinds (ratings_of scenario) (movies_of scenario) (users_of scenario) /\
  NoDup (map m_movie_id (movies_of scenario)) /\
  NoDup (map u_user_id (users_of scenario)) /\
  exists joined,
    merge_datasets (ratings_of scenario) (movies_of scenario)
      (users_of scenario) = Ok joined /\
    (List.length joined <= List.length (ratings_of scenario))%nat.
Proof.
  assert (T : typed_keys (ratings_of scenario) (movies_of scenario)
                (users_of scenario))
    by (repeat split; intro H; discriminate H).
  assert (K : same_kinds (ratings_of scenario) (movies_of scenario)
                (users_of scenario)) by (split; reflexivity).
  assert (Hm : NoDup (map m_movie_id (movies_of scenario)))
    by (repeat constructor; simpl; tauto).
  assert (Hu : NoDup (map u_user_id (users_of scenario)))
    by (repeat constructor; simpl; tauto).
  split; [exact T|]. split; [exact K|]. split; [exact Hm|].
  split; [exact Hu|].
  destruct (proj1 (merge_cardinality (ratings_of scenario)
                     (movies_of scenario) (users_of scenario) Hm Hu T) K)
    as [joined [E [_ [L _]]]].
  exists joined. split; [exact E|exact L].
Defined.

(** ** Levels of the occupation column *)

Lemma slt_irrefl (s : string) : ~ slt s s.
Proof. apply (@StrictOrder_Irreflexive _ _ String_as_OT.lt_strorder). Qed.

Lemma slt_trans (a b c : string) : slt a b -> slt b c -> slt a c.
Proof. apply (@StrictOrder_Transitive _ _ String_as_OT.lt_strorder). Qed.

Lemma in_insert_level (s : string) (l : list string) (x : string) :
  In x (insert_level s l) <-> x = s \/ In x l.
Proof.
  induction l as [|a l IH]; simpl.
  - intuition.
  - destruct (String_as_OT.compare_spec s a) as [E|L|G]; simpl.
    + change (s = a) in E. subst a. intuition.
    + intuition.
    + rewrite IH. intuition.
Qed.

Lemma insert_level_sorted (s : string) (l : list string) :
  StronglySorted slt l -> StronglySorted slt (insert_level s l).
Proof.
  induction 1 as [|a l Hl IH Ha]; simpl.
  - repeat constructor.
  - destruct (String_as_OT.compare_spec s a) as [E|L|G].
    + now constructor.
    + constructor; [now constructor|].
      constructor; [exact L|].
      rewrite Forall_forall in *. intros y Hy.
      eapply slt_trans; [exact L|]. now apply Ha.
    + constructor; [exact IH|].
      rewrite Forall_forall in *. intros y Hy.
      apply in_insert_level in Hy. destruct Hy as [->|Hy]; [exact G|].
      now apply Ha.
Qed.

Lemma levels_sorted (column : list (option string)) :
  StronglySorted slt (levels column).
Proof.
  unfold levels. induction (dropna column) as [|s l IH]; simpl.
  - constructor.
  - now apply insert_level_sorted.
Qed.

Lemma in_dropna {A : Type} (l : list (option A)) (x : A) :
  In x (dropna l) <-> In (Some x) l.
Proof.
  unfold dropna. rewrite in_flat_map. split.
  - intros [[y|] [Hy Hx]]; simpl in Hx; [|contradiction].
    destruct Hx as [->|[]]. exact Hy.
  - intro H. exists (Some x). split; [exact H|now left].
Qed.

Lemma in_levels (column : list (option string)) (x : string) :
  In x (levels column) <-> In (Some x) column.
Proof.
  rewrite <- in_dropna. unfold levels.
  induction (dropna column) as [|s l IH]; simpl; [tauto|].
  rewrite in_insert_level, IH. intuition.
Qed.

Lemma StronglySorted_NoDup {A : Type} (R : A -> A -> Prop) (l : list A) :
  (forall x, ~ R x x) -> StronglySorted R l -> NoDup l.
Proof.
  intro Irr. induction 1 as [|a l Hl IH Ha]; constructor; [|exact IH].
  intro Hin. rewrite Forall_forall in Ha.
  exact (Irr a (Ha a Hin)).
Qed.

Lemma sorted_NoDup (l : list string) : StronglySorted slt l -> NoDup l.
Proof. apply StronglySorted_NoDup. exact slt_irrefl. Qed.

(** A strictly increasing list is determined by its elements. *)
Lemma sorted_ext (l1 l2 : list string) :
  StronglySorted slt l1 -> StronglySorted slt l2 ->
  (forall x, In x l1 <-> In x l2) -> l1 = l2.
Proof.
  intro S1. revert l2.
  induction S1 as [|a l1 S1 IH Ha]; intros l2 S2 E.
  - destruct l2 as [|b l2]; [reflexivity|].
    exfalso. apply (E b). now left.
  - destruct S2 as [|b l2 S2 Hb].
    { exfalso. apply (E a). now left. }
    rewrite Forall_forall in Ha, Hb.
    assert (a = b) as <-.
    { destruct (proj1 (E a) (or_introl eq_refl)) as [->|Ha2]; [reflexivity|].
      destruct (proj2 (E b) (or_introl eq_refl)) as [->|Hb1]; [reflexivity|].
      exfalso. apply (slt_irrefl a).
      exact (slt_trans a b a (Ha b Hb1) (Hb a Ha2)). }
    f_equal. apply IH; [exact S2|].
    intro x. split; intro Hx.
    + destruct (proj1 (E x) (or_intror Hx)) as [<-|H]; [|exact H].
      exfalso. exact (slt_irrefl a (Ha a Hx)).
    + destruct (proj2 (E x) (or_intror Hx)) as [<-|H]; [|exact H].
      exfalso. exact (slt_irrefl a (Hb a Hx)).
Qed.

Lemma levels_permutation (c1 c2 : list (option string)) :
  Permutation c1 c2 -> levels c1 = levels c2.
Proof.
  intro P. apply sorted_ext; try apply levels_sorted.
  intro x. rewrite !in_levels. split; apply Permutation_in;
    [exact P|now apply Permutation_sym].
Qed.

(** ** Group sums *)

Lemma group_sum_length (rows : list row) (b o : string) :
  List.length (group_sum rows b o) = List.length genre_columns.
Proof. unfold group_sum. now rewrite length_map, length_seq. Qed.

Lemma group_sum_nth (rows : list row) (b o : string) (j : nat) :
  (j < List.length genre_columns)%nat ->
  nth j (group_sum rows b o) 0 = column_sum j (filter (in_group b o) rows).
Proof.
  intro Hj. unfold group_sum.
  rewrite (nth_indep _ 0 (column_sum (List.length genre_columns)
                            (filter (in_group b o) rows)))
    by now rewrite length_map, length_seq.
  rewrite (map_nth (fun j => column_sum j (filter (in_group b o) rows))).
  now rewrite seq_nth.
Qed.

Lemma column_sum_permutation (j : nat) (f : row -> bool)
    (rows rows' : list row) :
  Permutation rows rows' ->
  column_sum j (filter f rows) = column_sum j (filter f rows').
Proof.
  unfold column_sum.
  induction 1 as [|x l l' P IH|x y l|l l' l'' P1 IH1 P2 IH2]; simpl.
  - reflexivity.
  - destruct (f x); simpl; now rewrite IH.
  - destruct (f x), (f y); simpl; lia.
  - now rewrite IH1.
Qed.

Lemma group_sum_permutation (rows rows' : list row) (b o : string) :
  Permutation rows rows' -> group_sum rows b o = group_sum rows' b o.
Proof.
  intro P. unfold group_sum. apply map_ext.
  intro j. now apply column_sum_permutation.
Qed.

Lemma genre_summary_permutation (rows rows' : list row) :
  Permutation rows rows' -> genre_summary rows = genre_summary rows'.
Proof.
  intro P. unfold genre_summary.
  rewrite (levels_permutation _ _ (Permutation_map row_occupation P)).
  apply flat_map_ext. intro b. apply map_ext. intro o.
  now rewrite (group_sum_permutation _ _ b o P).
Qed.



(** ** Membership in a group *)

Lemma option_eqb_true (o : option string) (s : string) :
  option_eqb o s = true <-> o = Some s.
Proof.
  destruct o as [t|]; simpl; [|split; discriminate].
  rewrite String.eqb_eq. split; congruence.
Qed.

Lemma in_group_prepare (b o : string) (m : merged_row) :
  in_group b o (prepare m) = true
  <-> cut (age m) age_bins age_labels = Some b /\ occupation m = Some o.
Proof.
  unfold in_group, prepare; simpl.
  now rewrite andb_true_iff, !option_eqb_true.
Qed.

Lemma cut_in_labels (x : option Z) (b : string) :
  cut x age_bins age_labels = Some b -> In b age_labels.
Proof.
  destruct x as [a|]; [|discriminate].
  split_age a; intro E; inversion E; simpl; tauto.
Qed.

Lemma flags_prepare_nth (j : nat) (m : merged_row) :
  nth j (flags (prepare m)) 0 = flag j m.
Proof.
  unfold prepare, flag; simpl.
  exact (map_nth (fun c => fillna 0 (to_numeric_coerce c)) (genres m) None j).
Qed.

(** ** Which groups exist *)

Lemma NoDup_list_prod {A B : Type} (l : list A) (l' : list B) :
  NoDup l -> NoDup l' -> NoDup (list_prod l l').
Proof.
  intros Hl Hl'. induction Hl as [|x l Hx Hl IH]; simpl; [constructor|].
  apply NoDup_app.
  - apply NoDup_map_NoDup_ForallPairs; [|exact Hl'].
    intros y z _ _ E. now inversion E.
  - exact IH.
  - intros [a c] Ha Hin. apply in_map_iff in Ha.
    destruct Ha as [y [E _]]. inversion E; subst.
    apply in_prod_iff in Hin. now apply Hx.
Qed.

Lemma summary_keys (rows : list row) :
  map fst (genre_summary rows)
  = list_prod age_labels (levels (map row_occupation rows)).
Proof.
  unfold genre_summary.
  induction age_labels as [|b labels IH]; simpl; [reflexivity|].
  rewrite map_app, map_map, IH. reflexivity.
Qed.

Lemma in_genre_summary (rows : list row) (b o : string) (v : list Z) :
  In (b, o, v) (genre_summary rows)
  <-> In b age_labels /\ In o (levels (map row_occupation rows))
      /\ v = group_sum rows b o.
Proof.
  unfold genre_summary. rewrite in_flat_map. split.
  - intros [b' [Hb H]]. apply in_map_iff in H.
    destruct H as [o' [E Ho]]. inversion E; subst. auto.
  - intros [Hb [Ho ->]]. exists b. split; [exact Hb|].
    apply in_map_iff. now exists o.
Qed.

Lemma age_labels_NoDup : NoDup age_labels.
Proof.
  repeat constructor; simpl; intuition discriminate.
Qed.

Lemma occupation_prepare (merged_data : list merged_row) :
  map row_occupation (map prepare merged_data) = map occupation merged_data.
Proof. rewrite map_map. reflexivity. Qed.

Lemma empty_group_sums_to_zero (rows : list row) (b o : string) :
  filter (in_group b o) rows = [] ->
  group_sum rows b o = repeat 0 (List.length genre_columns).
Proof. intro E. unfold group_sum. rewrite E. reflexivity. Qed.

(** C2, the claim as stated fails: in the scenario no row is in the pair
    ("<20", "engineer"), and yet the result has a zero-filled group for it. *)
Lemma scenario_has_zero_filled_group :
  filter (in_group "<20" "engineer") (map prepare scenario_merged) = [] /\
  In ("<20", "engineer", repeat 0 (List.length genre_columns))
     (genre_summary (map prepare scenario_merged)) /\
  List.length (genre_summary (map prepare scenario_merged)) = 5%nat.
Proof. repeat split; try reflexivity. vm_compute. tauto. Qed.

(** C2, as amended: the result has exactly one group for every pair of one
    of the five age labels and an occupation present in the joined data,
    hence one for every pair that occurs; a pair of that product without
    rows is present with zero sums (the grouping keeps unobserved age
    categories), and a pair whose occupation never occurs is absent. *)
Theorem groups_are_labels_times_occupations (merged_data : list merged_row) :
  let summary := genre_summary (map prepare merged_data) in
  NoDup (map fst summary) /\
  (forall b o, In (b, o) (map fst summary)
     <-> In b age_labels /\ In (Some o) (map occupation merged_data)) /\
  (forall m b o, In m merged_data ->
     cut (age m) age_bins age_labels = Some b -> occupation m = Some o ->
     In (b, o) (map fst summary)) /\
  (forall b o v, In (b, o, v) summary ->
     v = group_sum (map prepare merged_data) b o) /\
  (forall b o,
     (forall m, In m merged_data ->
        ~ (cut (age m) age_bins age_labels = Some b /\ occupation m = Some o))
     -> group_sum (map prepare merged_data) b o
        = repeat 0 (List.length genre_columns)).
Proof.
  intro summary. subst summary.
  assert (K : forall b o,
    In (b, o) (map fst (genre_summary (map prepare merged_data)))
    <-> In b age_labels /\ In (Some o) (map occupation merged_data)).
  { intros b o.
    now rewrite summary_keys, in_prod_iff, in_levels, occupation_prepare. }
  split; [|split; [exact K|split; [|split]]].
  - rewrite summary_keys. apply NoDup_list_prod.
    + exact age_labels_NoDup.
    + apply sorted_NoDup, levels_sorted.
  - intros m b o Hm Hb Ho. apply K. split.
    + now apply (cut_in_labels (age m)).
    + rewrite <- Ho. now apply in_map.
  - intros b o v H. now apply in_genre_summary in H.
  - intros b o H. apply empty_group_sums_to_zero. clear K.
    induction merged_data as [|m ms IH]; [reflexivity|].
    simpl. destruct (in_group b o (prepare m)) eqn:E.
    + apply in_group_prepare in E. exfalso. apply (H m); [now left|exact E].
    + apply IH. intros m' Hm'. apply H. now right.
Qed.

(** ** The rows of the result *)

Lemma in_aggregate (merged_data : list merged_row) (t : top_row) :
  In t (aggregate merged_data)
  <-> exists b o,
        In b age_labels /\ In (Some o) (map occupation merged_data) /\
        t = mk_top b o (top_genres (group_sum (map prepare merged_data) b o)).
Proof.
  unfold aggregate, top_genres_df. rewrite in_map_iff. split.
  - intros [[[b o] v] [E H]]. apply in_genre_summary in H.
    destruct H as [Hb [Ho ->]]. exists b, o.
    rewrite in_levels, occupation_prepare in Ho. simpl in E. auto.
  - intros [b [o [Hb [Ho ->]]]].
    exists (b, o, group_sum (map prepare merged_data) b o).
    split; [reflexivity|]. apply in_genre_summary.
    now rewrite in_levels, occupation_prepare.
Qed.

(** ** What a group sums *)

(** C1, the claim as stated fails: in the scenario (rating 5, Comedy flag 1)
    the Comedy sum of the group ("20-25", "engineer") is 1, not 5. *)
Lemma scenario_comedy_sum_is_one :
  map rating scenario_merged = [Some (Int 5)] /\
  map (flag (index_of "Comedy" genre_columns)) scenario_merged = [1] /\
  score (group_sum (map prepare scenario_merged) "20-25" "engineer") "Comedy"
  = 1 /\
  score (group_sum (map prepare scenario_merged) "20-25" "engineer") "Comedy"
  <> 5.
Proof. repeat split; try reflexivity. vm_compute. discriminate. Qed.

Lemma in_group_member (b o : string) (m : merged_row) :
  in_group b o (prepare m) = member b o m.
Proof.
  unfold in_group, member, prepare; simpl.
  destruct (cut (age m) age_bins age_labels), (occupation m); simpl;
    try reflexivity.
  now rewrite andb_false_r.
Qed.

Lemma group_sum_members (j : nat) (b o : string)
    (merged_data : list merged_row) :
  column_sum j (filter (in_group b o) (map prepare merged_data))
  = zsum (map (flag j) (filter (member b o) merged_data)).
Proof.
  unfold column_sum, zsum.
  induction merged_data as [|m ms IH]; simpl; [reflexivity|].
  rewrite in_group_member. destruct (member b o m); [|exact IH].
  cbn [map fold_right]. now rewrite flags_prepare_nth, IH.
Qed.

Lemma wrap64_small (x : Z) : - 2 ^ 63 <= x < 2 ^ 63 -> wrap64 x = x.
Proof.
  intro H. unfold wrap64. rewrite Z.mod_small; lia.
Qed.

(** Adding values one after the other in 64 bits gives their sum when the
    absolute values add up to less than 2^63. *)
Lemma sum64_exact (l : list Z) :
  zsum (map Z.abs l) < 2 ^ 63 -> sum64 l = zsum l.
Proof.
  unfold sum64.
  assert (G : forall acc,
            Z.abs acc + zsum (map Z.abs l) < 2 ^ 63 ->
            fold_left (fun a x => wrap64 (a + x)) l acc = acc + zsum l).
  { induction l as [|x l IH]; intros acc H; simpl in *.
    - unfold zsum. simpl. lia.
    - unfold zsum in *. simpl in *.
      assert (P : 0 <= fold_right Z.add 0 (map Z.abs l)).
      { clear. induction l as [|y l IH]; simpl; lia. }
      rewrite wrap64_small by lia. rewrite IH by lia. lia. }
  intro H. rewrite G; simpl; lia.
Qed.

Lemma members_abs_le (j : nat) (f : merged_row -> bool)
    (merged_data : list merged_row) :
  0 <= zsum (map (fun m => Z.abs (flag j m)) (filter f merged_data))
    <= zsum (map (fun m => Z.abs (flag j m)) merged_data).
Proof.
  unfold zsum. induction merged_data as [|m ms IH]; simpl; [lia|].
  destruct (f m); simpl; lia.
Qed.

Lemma prepare_same_but_rating (m m' : merged_row) :
  same_but_rating m m' -> prepare m = prepare m'.
Proof.
  intros [_ [_ [_ [G [A O]]]]]. unfold prepare. now rewrite G, A, O.
Qed.

Lemma flag_beyond (m : merged_row) (j : nat) :
  (List.length (genres m) <= j)%nat -> flag j m = 0.
Proof. intro H. unfold flag. now rewrite nth_overflow. Qed.

(** The scenario has one joined row, with flags 0 and 1. *)
Lemma scenario_sums_are_exact : exact_sums scenario_merged.
Proof.
  intro j. destruct (Nat.lt_ge_cases j 19) as [L|G].
  - do 19 (destruct j as [|j]; [vm_compute; reflexivity|]). lia.
  - change scenario_merged
      with [nth 0 scenario_merged (mk_merged None None None None [] None None)].
    unfold zsum. cbn [map fold_right].
    rewrite flag_beyond; [reflexivity|exact G].
Qed.

Lemma zsum_zero {A : Type} (f : A -> Z) (l : list A) :
  (forall x, In x l -> f x = 0) -> zsum (map f l) = 0.
Proof.
  unfold zsum. induction l as [|a l IH]; intro H; [reflexivity|].
  cbn [map fold_right]. rewrite (H a (or_introl eq_refl)), IH; [reflexivity|].
  intros x Hx. apply H. now right.
Qed.

Lemma exact_sums_check (n : nat) (merged_data : list merged_row) :
  small_columns n merged_data = true -> exact_sums merged_data.
Proof.
  unfold small_columns. rewrite andb_true_iff, !forallb_forall.
  intros [W S] j. destruct (Nat.lt_ge_cases j n) as [L|G].
  - apply Z.ltb_lt. apply S. apply in_seq. lia.
  - rewrite zsum_zero; [reflexivity|].
    intros m Hm. rewrite flag_beyond; [reflexivity|].
    specialize (W m Hm). apply Nat.leb_le in W. lia.
Qed.

(** C1, as amended: for every group of the result and every genre column,
    the summed value is the sum of the numeric flags of the joined rows of
    that pair (age in the interval of the label, same occupation), each flag
    counted once and not weighted by the rating: changing the ratings
    changes nothing.  This is the value the 64-bit addition of the flags
    gives as long as the sums are small enough to be exact. *)
Theorem group_vector_is_the_flag_sum (merged_data : list merged_row)
    (b o : string) (v : list Z) (j : nat)
    (Hexact : exact_sums merged_data)
    (Hin : In (b, o, v) (genre_summary (map prepare merged_data)))
    (Hj : (j < List.length genre_columns)%nat) :
  nth j v 0 = zsum (map (flag j) (filter (member b o) merged_data)) /\
  nth j v 0 = sum64 (map (flag j) (filter (member b o) merged_data)) /\
  forall reweighted,
    Forall2 same_but_rating merged_data reweighted ->
    genre_summary (map prepare reweighted)
    = genre_summary (map prepare merged_data).
Proof.
  apply in_genre_summary in Hin. destruct Hin as [_ [_ ->]].
  rewrite (group_sum_nth _ _ _ _ Hj), group_sum_members.
  split; [reflexivity|]. split.
  - symmetry. apply sum64_exact.
    pose proof (members_abs_le j (member b o) merged_data) as B.
    pose proof (Hexact j) as E. rewrite map_map. lia.
  - intros reweighted F. f_equal. clear Hexact.
    induction F as [|m m' l l' S F IH]; [reflexivity|].
    simpl. rewrite IH. f_equal. symmetry. now apply prepare_same_but_rating.
Qed.

Lemma group_vector_is_the_flag_sum_witness :
  exact_sums scenario_merged /\
  In ("20-25", "engineer",
      [0; 0; 0; 0; 0; 1; 0; 0; 0; 0; 0; 0; 0; 0; 0; 0; 0; 0; 0])
     (genre_summary (map prepare scenario_merged)) /\
  (5 < List.length genre_columns)%nat /\
  1 = zsum (map (flag 5) (filter (member "20-25" "engineer") scenario_merged)).
Proof.
  pose proof scenario_sums_are_exact as E.
  assert (H : In ("20-25", "engineer",
                  [0; 0; 0; 0; 0; 1; 0; 0; 0; 0; 0; 0; 0; 0; 0; 0; 0; 0; 0])
                 (genre_summary (map prepare scenario_merged)))
    by (vm_compute; tauto).
  assert (J : (5 < List.length genre_columns)%nat) by (simpl; lia).
  split; [exact E|]. split; [exact H|]. split; [exact J|].
  exact (proj1 (group_vector_is_the_flag_sum scenario_merged "20-25"
                  "engineer" _ 5 E H J)).
Defined.

(** ** Ranking of the genres *)

Lemma StronglySorted_weaken {A : Type} (R R' : A -> A -> Prop) (l : list A) :
  (forall x y, In x l -> In y l -> R x y -> R' x y) ->
  StronglySorted R l -> StronglySorted R' l.
Proof.
  intros W S. induction S as [|a l S IH Ha].
  - constructor.
  - constructor.
    + apply IH. intros x y Hx Hy. apply W; now right.
    + rewrite Forall_forall in *. intros y Hy.
      apply W; [now left|now right|now apply Ha].
Qed.

Lemma StronglySorted_map {A B : Type} (f : A -> B) (R : A -> A -> Prop)
    (R' : B -> B -> Prop) (l : list A) :
  (forall x y, In x l -> In y l -> R x y -> R' (f x) (f y)) ->
  StronglySorted R l -> StronglySorted R' (map f l).
Proof.
  intros W S. induction S as [|a l S IH Ha]; simpl.
  - constructor.
  - constructor.
    + apply IH. intros x y Hx Hy. apply W; now right.
    + rewrite Forall_forall in *. intros y Hy.
      apply in_map_iff in Hy. destruct Hy as [z [<- Hz]].
      apply W; [now left|now right|now apply Ha].
Qed.

Lemma StronglySorted_app_inv {A : Type} (R : A -> A -> Prop)
    (l1 l2 : list A) :
  StronglySorted R (l1 ++ l2) ->
  StronglySorted R l1 /\ (forall x y, In x l1 -> In y l2 -> R x y).
Proof.
  induction l1 as [|a l1 IH]; simpl; intro S.
  - split; [constructor|contradiction].
  - apply StronglySorted_inv in S. destruct S as [S Ha].
    destruct (IH S) as [S1 C]. rewrite Forall_forall in Ha. split.
    + constructor; [exact S1|].
      rewrite Forall_forall. intros y Hy. apply Ha, in_or_app. now left.
    + intros x y [<-|Hx] Hy; [|now apply C].
      apply Ha, in_or_app. now right.
Qed.

Lemma insert_desc_permutation (x : string * Z) (l : list (string * Z)) :
  Permutation (insert_desc x l) (x :: l).
Proof.
  induction l as [|y t IH]; simpl; [reflexivity|].
  destruct (snd y <=? snd x); [reflexivity|].
  rewrite IH. apply perm_swap.
Qed.

Lemma sort_desc_permutation (s : list (string * Z)) :
  Permutation (sort_desc s) s.
Proof.
  induction s as [|x s IH]; simpl; [reflexivity|].
  rewrite insert_desc_permutation. now constructor.
Qed.

Lemma entry_before_le (names : list string) (x y : string * Z) :
  entry_before names x y -> snd y <= snd x.
Proof. unfold entry_before. lia. Qed.

(** Inserting an entry that comes from an earlier column than all the
    entries already sorted keeps the list ranked. *)
Lemma insert_desc_sorted (names : list string) (x : string * Z)
    (l : list (string * Z)) :
  (forall z, In z l -> (index_of (fst x) names < index_of (fst z) names)%nat) ->
  StronglySorted (entry_before names) l ->
  StronglySorted (entry_before names) (insert_desc x l).
Proof.
  intros Hx S. induction S as [|y t S IH Hy]; simpl.
  - repeat constructor.
  - rewrite Forall_forall in Hy.
    destruct (Z.leb_spec (snd y) (snd x)) as [L|G].
    + constructor; [now constructor; [|rewrite Forall_forall]|].
      rewrite Forall_forall. intros z Hz.
      assert (Hle : snd z <= snd x).
      { destruct Hz as [<-|Hz]; [exact L|].
        pose proof (entry_before_le _ _ _ (Hy z Hz)). lia. }
      unfold entry_before.
      destruct (Z.eq_dec (snd x) (snd z)) as [E|N]; [|left; lia].
      right. split; [exact E|]. now apply Hx.
    + constructor.
      * apply IH. intros z Hz. apply Hx. now right.
      * rewrite Forall_forall. intros z Hz.
        apply (Permutation_in _ (insert_desc_permutation x t)) in Hz.
        destruct Hz as [<-|Hz]; [left; exact G|now apply Hy].
Qed.

Lemma sort_desc_sorted (s : list (string * Z)) :
  NoDup (map fst s) ->
  StronglySorted (entry_before (map fst s)) (sort_desc s).
Proof.
  induction s as [|x s IH]; simpl; intro N; [constructor|].
  inversion N as [|? ? Hx N']; subst.
  assert (Shift : forall z, In z (sort_desc s) ->
            index_of (fst z) (fst x :: map fst s)
            = S (index_of (fst z) (map fst s))).
  { intros z Hz. simpl.
    destruct (String.eqb_spec (fst x) (fst z)) as [E|_]; [|reflexivity].
    exfalso. apply Hx. rewrite E. apply in_map.
    exact (Permutation_in _ (sort_desc_permutation s) Hz). }
  apply insert_desc_sorted.
  - intros z Hz. rewrite (Shift z Hz). simpl.
    rewrite String.eqb_refl. lia.
  - apply (StronglySorted_weaken (entry_before (map fst s))); [|now apply IH].
    intros a b Ha Hb. unfold entry_before.
    rewrite (Shift a Ha), (Shift b Hb). lia.
Qed.

Lemma map_fst_combine (names : list string) (v : list Z) :
  List.length names = List.length v -> map fst (combine names v) = names.
Proof.
  revert v. induction names as [|g names IH]; intros [|z v] E;
    simpl in *; try discriminate; [reflexivity|].
  f_equal. apply IH. lia.
Qed.

Lemma combine_score (names : list string) (v : list Z) (g : string) (z : Z) :
  NoDup names -> In (g, z) (combine names v) ->
  nth (index_of g names) v 0 = z.
Proof.
  revert v. induction names as [|n names IH]; intros [|y v] N H;
    simpl in *; try contradiction.
  inversion N as [|? ? Hn N']; subst.
  destruct H as [E|H].
  - inversion E; subst. now rewrite String.eqb_refl.
  - destruct (String.eqb_spec n g) as [->|_].
    + exfalso. apply Hn. exact (in_combine_l _ _ _ _ H).
    + now apply IH.
Qed.

Lemma genre_columns_NoDup : NoDup genre_columns.
Proof.
  unfold genre_columns. simpl skipn.
  repeat (constructor;
          [simpl; intro H;
           repeat (destruct H as [H|H]; [discriminate H|]); exact H|]).
  constructor.
Qed.

Lemma ranks_before_irrefl (v : list Z) (g : string) : ~ ranks_before v g g.
Proof. unfold ranks_before. lia. Qed.

Lemma ranks_before_le (v : list Z) (g h : string) :
  ranks_before v g h -> score v h <= score v g.
Proof. unfold ranks_before. lia. Qed.

(** The five names kept for a vector of sums: they are ranked, and every
    genre left out ranks after each of them. *)
Lemma top_genres_ranked (v : list Z) :
  List.length v = List.length genre_columns ->
  List.length (top_genres v) = 5%nat /\
  incl (top_genres v) genre_columns /\
  StronglySorted (ranks_before v) (top_genres v) /\
  (forall g h, In g (top_genres v) -> In h genre_columns ->
     ~ In h (top_genres v) -> ranks_before v g h).
Proof.
  intro Hv. unfold top_genres, nlargest.
  set (l := combine genre_columns v).
  assert (Hfst : map fst l = genre_columns)
    by (apply map_fst_combine; now rewrite Hv).
  pose proof (sort_desc_permutation l) as Hp.
  assert (Hs : StronglySorted (entry_before genre_columns) (sort_desc l)).
  { rewrite <- Hfst. apply sort_desc_sorted. rewrite Hfst.
    exact genre_columns_NoDup. }
  assert (Hin : forall x, In x (sort_desc l) -> In x l)
    by (intro x; apply Permutation_in; exact Hp).
  assert (Hsc : forall x, In x l -> snd x = score v (fst x)).
  { intros [g z] Hx. simpl. unfold score. symmetry.
    now apply combine_score; [exact genre_columns_NoDup|]. }
  assert (Hrb : forall x y, In x l -> In y l ->
            entry_before genre_columns x y -> ranks_before v (fst x) (fst y)).
  { intros x y Hx Hy. unfold entry_before, ranks_before.
    now rewrite (Hsc x Hx), (Hsc y Hy). }
  rewrite <- (firstn_skipn 5 (sort_desc l)) in Hs.
  apply StronglySorted_app_inv in Hs. destruct Hs as [S1 C].
  assert (Hf : forall x, In x (firstn 5 (sort_desc l)) -> In x l).
  { intros x Hx. apply Hin. rewrite <- (firstn_skipn 5 (sort_desc l)).
    apply in_or_app. now left. }
  split; [|split; [|split]].
  - rewrite length_map, length_firstn, (Permutation_length Hp).
    unfold l. rewrite length_combine, Hv. reflexivity.
  - intros g Hg. apply in_map_iff in Hg. destruct Hg as [x [<- Hx]].
    rewrite <- Hfst. apply in_map. now apply Hf.
  - apply (StronglySorted_map fst (entry_before genre_columns)); [|exact S1].
    intros x y Hx Hy. apply Hrb; now apply Hf.
  - intros g h Hg Hh Hn. apply in_map_iff in Hg. destruct Hg as [x [<- Hx]].
    rewrite <- Hfst in Hh. apply in_map_iff in Hh.
    destruct Hh as [y [<- Hy]].
    apply Hrb; [now apply Hf|exact Hy|]. apply C; [exact Hx|].
    apply (Permutation_in _ (Permutation_sym Hp)) in Hy.
    rewrite <- (firstn_skipn 5 (sort_desc l)) in Hy.
    apply in_app_or in Hy. destruct Hy as [Hy|Hy]; [|exact Hy].
    exfalso. apply Hn. now apply in_map.
Qed.

Lemma aggregate_row (merged_data : list merged_row) (t : top_row) :
  In t (aggregate merged_data) ->
  t_top_genres t
  = top_genres (group_sum (map prepare merged_data)
                  (t_age_group t) (t_occupation t)).
Proof.
  intro H. apply in_aggregate in H. now destruct H as [b [o [_ [_ ->]]]].
Qed.

(** C3: in every result row, [top_genres] has between 1 and 5 entries; they
    are the categories with the largest sums of the group (every category
    left out ranks after every category kept), listed by non-increasing
    sum, and equal sums are ordered by increasing position of the column in
    the declared order. *)
Theorem top_genres_are_the_largest (merged_data : list merged_row)
    (t : top_row) (Ht : In t (aggregate merged_data)) :
  let sums :=
    group_sum (map prepare merged_data) (t_age_group t) (t_occupation t) in
  (1 <= List.length (t_top_genres t) <= 5)%nat /\
  StronglySorted (fun g h => score sums h <= score sums g) (t_top_genres t) /\
  StronglySorted (ranks_before sums) (t_top_genres t) /\
  (forall g h, In g (t_top_genres t) -> In h genre_columns ->
     ~ In h (t_top_genres t) ->
     score sums h <= score sums g /\ ranks_before sums g h).
Proof.
  intro sums. rewrite (aggregate_row _ _ Ht). fold sums.
  destruct (top_genres_ranked sums) as [L [I [S C]]];
    [apply group_sum_length|].
  split; [lia|]. split; [|split; [exact S|]].
  - apply (StronglySorted_weaken (ranks_before sums)); [|exact S].
    intros g h _ _. apply ranks_before_le.
  - intros g h Hg Hh Hn. pose proof (C g h Hg Hh Hn) as R.
    split; [exact (ranks_before_le sums g h R)|exact R].
Qed.

Lemma top_genres_are_the_largest_witness :
  In (mk_top "20-25" "engineer"
        ["Comedy"; "unknown"; "Action"; "Adventure"; "Animation"])
     (aggregate scenario_merged) /\
  (1 <= 5 <= 5)%nat.
Proof.
  assert (H : In (mk_top "20-25" "engineer"
                    ["Comedy"; "unknown"; "Action"; "Adventure"; "Animation"])
                 (aggregate scenario_merged))
    by (vm_compute; tauto).
  split; [exact H|].
  exact (proj1 (top_genres_are_the_largest scenario_merged _ H)).
Defined.

(** ** Lists in another order *)

Lemma Permutation_filter {A : Type} (f : A -> bool) (l l' : list A) :
  Permutation l l' -> Permutation (filter f l) (filter f l').
Proof.
  induction 1 as [|x l l' P IH|x y l|l l' l'' P1 IH1 P2 IH2]; simpl.
  - constructor.
  - destruct (f x); [now constructor|exact IH].
  - destruct (f x), (f y); try reflexivity. apply perm_swap.
  - now transitivity (filter f l').
Qed.

Lemma forallb_permutation {A : Type} (f : A -> bool) (l l' : list A) :
  Permutation l l' -> forallb f l = forallb f l'.
Proof.
  induction 1 as [|x l l' P IH|x y l|l l' l'' P1 IH1 P2 IH2]; simpl.
  - reflexivity.
  - now rewrite IH.
  - destruct (f x), (f y); reflexivity.
  - now rewrite IH1.
Qed.

Lemma existsb_permutation {A : Type} (f : A -> bool) (l l' : list A) :
  Permutation l l' -> existsb f l = existsb f l'.
Proof.
  induction 1 as [|x l l' P IH|x y l|l l' l'' P1 IH1 P2 IH2]; simpl.
  - reflexivity.
  - now rewrite IH.
  - destruct (f x), (f y); reflexivity.
  - now rewrite IH1.
Qed.

(** ** The rank of a genre *)

Lemma ranks_beforeb_spec (v : list Z) (g h : string) :
  ranks_beforeb v g h = true <-> ranks_before v g h.
Proof.
  unfold ranks_beforeb, ranks_before.
  rewrite orb_true_iff, andb_true_iff, Z.ltb_lt, Z.eqb_eq, Nat.ltb_lt.
  tauto.
Qed.

Lemma ranks_before_asym (v : list Z) (g h : string) :
  ranks_before v g h -> ~ ranks_before v h g.
Proof. unfold ranks_before. lia. Qed.

(** All the genre names, by decreasing sum. *)
Lemma ranking_sorted (v : list Z) :
  List.length v = List.length genre_columns ->
  StronglySorted (ranks_before v)
    (map fst (sort_desc (combine genre_columns v))) /\
  Permutation (map fst (sort_desc (combine genre_columns v))) genre_columns.
Proof.
  intro Hv. set (l := combine genre_columns v).
  assert (Hfst : map fst l = genre_columns)
    by (apply map_fst_combine; now rewrite Hv).
  pose proof (sort_desc_permutation l) as Hp.
  split.
  - apply (StronglySorted_map fst (entry_before genre_columns)).
    + intros x y Hx Hy.
      apply (Permutation_in _ Hp) in Hx. apply (Permutation_in _ Hp) in Hy.
      assert (Hsc : forall z, In z l -> snd z = score v (fst z)).
      { intros [g z] Hz. simpl. unfold score. symmetry.
        now apply combine_score; [exact genre_columns_NoDup|]. }
      unfold entry_before, ranks_before.
      now rewrite (Hsc x Hx), (Hsc y Hy).
    + rewrite <- Hfst. apply sort_desc_sorted. rewrite Hfst.
      exact genre_columns_NoDup.
  - rewrite <- Hfst. now apply Permutation_map.
Qed.

Lemma filter_none {A : Type} (f : A -> bool) (l : list A) :
  (forall x, In x l -> f x = false) -> filter f l = [].
Proof.
  induction l as [|a l IH]; intro H; [reflexivity|]. simpl.
  rewrite (H a (or_introl eq_refl)). apply IH. intros x Hx. apply H.
  now right.
Qed.

(** In a ranked list the names that come before [g] are those listed before
    it. *)
Lemma before_in_ranked (v : list Z) (s1 s2 : list string) (g : string) :
  StronglySorted (ranks_before v) (s1 ++ g :: s2) ->
  filter (fun h => ranks_beforeb v h g) (s1 ++ g :: s2) = s1.
Proof.
  intro S. apply StronglySorted_app_inv in S as S'. destruct S' as [_ C].
  assert (S2 : StronglySorted (ranks_before v) (g :: s2)).
  { clear C. induction s1 as [|x s1 IH]; [exact S|].
    apply IH. simpl in S. now apply StronglySorted_inv in S. }
  apply StronglySorted_inv in S2. destruct S2 as [_ F].
  rewrite Forall_forall in F.
  rewrite filter_app. simpl.
  replace (ranks_beforeb v g g) with false.
  - replace (filter (fun h => ranks_beforeb v h g) s2) with (@nil string).
    + rewrite app_nil_r. apply forallb_filter_id.
      apply forallb_forall. intros x Hx. apply ranks_beforeb_spec.
      apply C; [exact Hx|now left].
    + symmetry. apply filter_none. intros y Hy.
      apply not_true_is_false. intro T. apply ranks_beforeb_spec in T.
      exact (ranks_before_asym v g y (F y Hy) T).
  - symmetry. apply not_true_is_false. intro T.
    apply ranks_beforeb_spec in T. exact (ranks_before_irrefl v g T).
Qed.

Lemma in_firstn_position {A : Type} (n : nat) (s1 s2 : list A) (g : A) :
  NoDup (s1 ++ g :: s2) ->
  In g (firstn n (s1 ++ g :: s2)) <-> (List.length s1 < n)%nat.
Proof.
  intro N. rewrite firstn_app. split.
  - intro H. destruct (Nat.lt_ge_cases (List.length s1) n) as [L|G];
      [exact L|exfalso].
    replace (n - List.length s1)%nat with O in H by lia.
    simpl in H. rewrite app_nil_r in H.
    apply NoDup_remove_2 in N. apply N. apply in_or_app. left.
    rewrite <- (firstn_skipn n s1). apply in_or_app. now left.
  - intro L. apply in_or_app. right.
    destruct (n - List.length s1)%nat as [|k] eqn:E; [lia|]. now left.
Qed.

(** A genre is among the five kept exactly when fewer than five genre
    columns come before it. *)
Lemma in_top_genres_rank (v : list Z) (g : string) :
  List.length v = List.length genre_columns -> In g genre_columns ->
  In g (top_genres v) <-> (rank v g < 5)%nat.
Proof.
  intros Hv Hg. destruct (ranking_sorted v Hv) as [S P].
  unfold top_genres, nlargest. rewrite <- firstn_map.
  set (s := map fst (sort_desc (combine genre_columns v))) in *.
  assert (Hs : In g s) by (apply (Permutation_in _ (Permutation_sym P) Hg)).
  apply in_split in Hs. destruct Hs as [s1 [s2 E]].
  unfold rank.
  rewrite <- (Permutation_length
                (Permutation_filter (fun h => ranks_beforeb v h g) _ _ P)).
  rewrite E in *. rewrite (before_in_ranked v s1 s2 g S).
  apply in_firstn_position.
  apply (Permutation_NoDup (Permutation_sym P)). exact genre_columns_NoDup.
Qed.

(** C10: every output row lists exactly 5 names, all different and all
    among the 19 genre columns.  "unknown" is one of these columns and is
    ranked like any other: a genre column is listed exactly when fewer than
    five columns come before it (a larger sum, or the same sum and an
    earlier column); for "unknown", the first column, that is when fewer
    than five columns have a strictly larger sum. *)
Theorem top_genres_has_five_names (merged_data : list merged_row)
    (t : top_row) (Ht : In t (aggregate merged_data)) :
  let sums :=
    group_sum (map prepare merged_data) (t_age_group t) (t_occupation t) in
  List.length (t_top_genres t) = 5%nat /\
  NoDup (t_top_genres t) /\
  incl (t_top_genres t) genre_columns /\
  List.length genre_columns = 19%nat /\
  In "unknown" genre_columns /\
  (forall g, In g genre_columns ->
     (In g (t_top_genres t) <-> (rank sums g < 5)%nat)) /\
  (In "unknown" (t_top_genres t)
   <-> (List.length
          (filter (fun h => (score sums "unknown" <? score sums h)%Z)
                  genre_columns) < 5)%nat).
Proof.
  intro sums. rewrite (aggregate_row _ _ Ht). fold sums.
  assert (Hv : List.length sums = List.length genre_columns)
    by apply group_sum_length.
  destruct (top_genres_ranked sums Hv) as [L [I [S C]]].
  assert (U : In "unknown" genre_columns) by (simpl; tauto).
  split; [exact L|]. split; [|split; [exact I|]].
  { apply (StronglySorted_NoDup (ranks_before sums)); [|exact S].
    apply ranks_before_irrefl. }
  split; [reflexivity|]. split; [exact U|]. split.
  - intros g Hg. now apply in_top_genres_rank.
  - rewrite (in_top_genres_rank sums "unknown" Hv U). unfold rank.
    rewrite (filter_ext (fun h => ranks_beforeb sums h "unknown")
                        (fun h => (score sums "unknown" <? score sums h)%Z));
      [reflexivity|].
    intro h. unfold ranks_beforeb.
    change (index_of "unknown" genre_columns) with O.
    replace (index_of h genre_columns <? 0)%nat with false
      by (symmetry; apply Nat.ltb_ge; lia).
    now rewrite andb_false_r, orb_false_r.
Qed.

Lemma top_genres_has_five_names_witness :
  In (mk_top "20-25" "engineer"
        ["Comedy"; "unknown"; "Action"; "Adventure"; "Animation"])
     (aggregate scenario_merged) /\
  List.length ["Comedy"; "unknown"; "Action"; "Adventure"; "Animation"]
  = 5%nat /\
  In "unknown" ["Comedy"; "unknown"; "Action"; "Adventure"; "Animation"].
Proof.
  assert (H : In (mk_top "20-25" "engineer"
                    ["Comedy"; "unknown"; "Action"; "Adventure"; "Animation"])
                 (aggregate scenario_merged))
    by (vm_compute; tauto).
  split; [exact H|]. split.
  - exact (proj1 (top_genres_has_five_names scenario_merged _ H)).
  - simpl. tauto.
Defined.

(** ** Loading *)

Lemma read_csv_error (names : list string) (src : source) (e : error) :
  read_csv names src = Raise e -> e = DataSourceError.
Proof.
  unfold read_csv. destruct src as [lines|]; [|congruence].
  destruct (forallb _ _); congruence.
Qed.

Lemma pad_length (width : nat) (record : list string) :
  (List.length record <= width)%nat ->
  List.length (pad width record) = width.
Proof.
  intro H. unfold pad. rewrite length_app, length_map, repeat_length. lia.
Qed.

Lemma pad_nth (width : nat) (record : list string) (i : nat) :
  nth i (pad width record) None
  = match nth_error record i with
    | Some f => to_raw f
    | None => None
    end.
Proof.
  unfold pad. destruct (Nat.lt_ge_cases i (List.length record)) as [L|G].
  - rewrite app_nth1 by now rewrite length_map.
    destruct (nth_error record i) as [f|] eqn:E.
    + rewrite (nth_indep _ None (to_raw f)) by now rewrite length_map.
      rewrite (map_nth to_raw record f i). f_equal.
      now apply nth_error_nth.
    + apply nth_error_None in E. lia.
  - rewrite app_nth2 by now rewrite length_map.
    rewrite (proj2 (nth_error_None record i) G).
    apply nth_repeat.
Qed.

Lemma pad_nth_missing (width : nat) (record : list string) (i : nat) :
  nth i (pad width record) None = None <-> missing record i = true.
Proof.
  rewrite pad_nth. unfold missing, to_raw.
  destruct (nth_error record i) as [f|]; [|tauto].
  destruct (is_na f); split; congruence.
Qed.

Lemma convert_none (j : nat) (rows : list (list (option string)))
    (r : list (option string)) :
  In r rows ->
  convert (numeric_column j rows) (nth j r None) = None
  <-> nth j r None = None.
Proof.
  intro Hr. destruct (nth j r None) as [f|] eqn:E; simpl; [|tauto].
  destruct (numeric_column j rows) eqn:N.
  - unfold numeric_column in N. rewrite forallb_forall in N.
    specialize (N r Hr). rewrite E in N.
    destruct (parse_int f); simpl; split; congruence.
  - split; congruence.
Qed.

Lemma nth_map_seq {A : Type} (f : nat -> A) (n i : nat) (d : A) :
  (i < n)%nat -> nth i (map f (seq 0 n)) d = f i.
Proof.
  intro H. rewrite (nth_indep _ d (f O)) by now rewrite length_map, length_seq.
  rewrite (map_nth f (seq 0 n) O i). now rewrite seq_nth.
Qed.

Lemma infer_types_length (width : nat) (rows : list (list (option string))) :
  List.length (infer_types width rows) = List.length rows.
Proof. unfold infer_types. apply length_map. Qed.

Lemma infer_types_nth (width : nat) (rows : list (list (option string)))
    (k : nat) (row : list cell) :
  nth_error (infer_types width rows) k = Some row ->
  exists r, nth_error rows k = Some r /\
    row = map (fun j => convert (numeric_column j rows) (nth j r None))
              (seq 0 width).
Proof.
  unfold infer_types. rewrite nth_error_map.
  destruct (nth_error rows k) as [r|]; simpl; [|discriminate].
  intro E. exists r. split; [reflexivity|congruence].
Qed.

(** A source whose records are no wider than the names is read as a frame of
    the width of the names. *)
Lemma read_csv_narrow (names : list string) (lines : list (list string)) :
  Forall (fun r => (List.length r <= List.length names)%nat)
         (non_blank lines) ->
  read_csv names (Some lines)
  = Ok (infer_types (List.length names)
          (map (pad (List.length names)) (non_blank lines))).
Proof.
  intro H. unfold read_csv.
  set (n := List.length names) in *.
  set (recs := non_blank lines) in *.
  assert (W : match recs with
              | [] => n
              | first :: _ => Nat.max n (List.length first)
              end = n).
  { destruct recs as [|first rest]; [reflexivity|].
    inversion H; subst. lia. }
  rewrite W.
  replace (forallb _ recs) with true.
  - rewrite Nat.sub_diag. f_equal.
    rewrite <- (map_id (infer_types n (map (pad n) recs))) at 2.
    apply map_ext. reflexivity.
  - symmetry. apply forallb_forall. rewrite Forall_forall in H.
    intros r Hr. apply Nat.leb_le. now apply H.
Qed.

(** C8, the claim as stated fails: a user record with four fields instead of
    five is loaded, its missing field read as NaN, and the run goes on to
    store the five groups of the engineers. *)
Lemma short_user_record_is_loaded :
  user_data_path short_user_record = Some [["1"; "22"; "M"; "engineer"]] /\
  (List.length ["1"; "22"; "M"; "engineer"]
   < List.length users_names)%nat /\
  read_csv users_names (user_data_path short_user_record)
  = Ok [[Some (Int 1); Some (Int 22); Some (Text "M");
         Some (Text "engineer"); None]] /\
  read_csv users_names (user_data_path short_user_record)
  <> Raise DataSourceError /\
  execute short_user_record reliable_server empty_database
  <> (Raise DataSourceError, empty_database) /\
  fst (execute short_user_record reliable_server empty_database) = Ok tt /\
  List.length
    (rows_of (snd (execute short_user_record reliable_server empty_database)
                "top_genres"))
  = 5%nat.
Proof.
  split; [reflexivity|]. split; [simpl; lia|].
  split; [reflexivity|]. split; [discriminate|].
  split; [|split; reflexivity].
  intro E. apply (f_equal fst) in E. vm_compute in E. discriminate E.
Qed.

(** C8, as amended: the run fails with DataSourceError whenever one of the
    three sources is unreadable, before anything is aggregated or written
    (the database is left as it was).  A record with fewer fields than the
    column names is not an error: a source whose records are no wider than
    the names (there is at least one name) is read, blank lines apart, as one row per record, in the
    order of the records; every row has one cell per name, and a cell is NaN
    exactly when the record has no such field or the field is empty or one
    of the strings read as NaN. *)
Theorem loader_failures :
  (forall config sv db, unreadable config ->
     load_and_merge config = Raise DataSourceError /\
     execute config sv db = (Raise DataSourceError, db)) /\
  (forall names lines,
     names <> [] ->
     Forall (fun r => (List.length r <= List.length names)%nat)
            (non_blank lines) ->
     exists frame,
       read_csv names (Some lines) = Ok frame /\
       List.length frame = List.length (non_blank lines) /\
       Forall (fun row => List.length row = List.length names) frame /\
       forall k record row i,
         nth_error (non_blank lines) k = Some record ->
         nth_error frame k = Some row ->
         (i < List.length names)%nat ->
         (nth i row None = None <-> missing record i = true)).
Proof.
  split.
  - intros config sv db U.
    assert (L : load_and_merge config = Raise DataSourceError).
    { unfold load_and_merge, unreadable in *.
      destruct (read_csv ratings_names (ratings_data_path config))
        as [ratings|e] eqn:E1; simpl;
        [|now rewrite (read_csv_error _ _ _ E1)].
      destruct (read_csv movies_names (movies_data_path config))
        as [movies|e] eqn:E2; simpl;
        [|now rewrite (read_csv_error _ _ _ E2)].
      destruct (read_csv users_names (user_data_path config))
        as [users|e] eqn:E3; simpl;
        [|now rewrite (read_csv_error _ _ _ E3)].
      destruct U as [U|[U|U]]; rewrite U in *; discriminate. }
    split; [exact L|]. unfold execute. now rewrite L.
  - intros names lines _ H.
    exists (infer_types (List.length names)
              (map (pad (List.length names)) (non_blank lines))).
    split; [now apply read_csv_narrow|]. split; [|split].
    + now rewrite infer_types_length, length_map.
    + apply Forall_forall. intros row Hrow. unfold infer_types in Hrow.
      apply in_map_iff in Hrow. destruct Hrow as [r [<- _]].
      now rewrite length_map, length_seq.
    + intros k record row i Hk Hrow Hi.
      apply infer_types_nth in Hrow. destruct Hrow as [r [Hr ->]].
      rewrite nth_error_map, Hk in Hr. simpl in Hr.
      injection Hr as <-.
      assert (In (pad (List.length names) record)
                 (map (pad (List.length names)) (non_blank lines))).
      { apply in_map. now apply nth_error_In with k. }
      rewrite nth_map_seq by exact Hi.
      rewrite convert_none by assumption.
      apply pad_nth_missing.
Qed.

Lemma loader_failures_witness :
  unreadable (mk_paths None (movies_data_path scenario)
                (user_data_path scenario)) /\
  execute (mk_paths None (movies_data_path scenario) (user_data_path scenario))
    reliable_server empty_database
  = (Raise DataSourceError, empty_database) /\
  users_names <> [] /\
  Forall (fun r => (List.length r <= List.length users_names)%nat)
    (non_blank [["1"; "22"; "M"; "engineer"]; []; ["2"; "NA"; "F"]]) /\
  exists frame,
    read_csv users_names
      (Some [["1"; "22"; "M"; "engineer"]; []; ["2"; "NA"; "F"]])
    = Ok frame /\
    List.length frame = 2%nat.
Proof.
  assert (U : unreadable (mk_paths None (movies_data_path scenario)
                            (user_data_path scenario)))
    by (left; reflexivity).
  assert (F : Forall (fun r => (List.length r <= List.length users_names)%nat)
                (non_blank [["1"; "22"; "M"; "engineer"]; [];
                            ["2"; "NA"; "F"]]))
    by (repeat constructor; simpl; lia).
  assert (N : users_names <> []) by discriminate.
  split; [exact U|]. split.
  - exact (proj2 (proj1 loader_failures _ reliable_server empty_database U)).
  - split; [exact N|]. split; [exact F|].
    destruct (proj2 loader_failures users_names _ N F) as [frame [E [L _]]].
    exists frame. split; [exact E|exact L].
Defined.

(** ** Writing to the database *)

Lemma set_table_same (t : string) (rows : table) (db : database) :
  set_table t rows db t = Some rows.
Proof. unfold set_table. now rewrite String.eqb_refl. Qed.

Lemma set_table_other (t t' : string) (rows : table) (db : database) :
  t' <> t -> set_table t rows db t' = db t'.
Proof.
  intro N. unfold set_table.
  destruct (String.eqb_spec t' t); [contradiction|reflexivity].
Qed.

(** What one statement does to a connection. *)
Lemma cursor_execute_cases (sv : server) (s : statement) (c : connection) :
  match cursor_execute sv s c with
  | (Ok _, c') =>
      run_statement s (session c) = Some (session c')
  | (Raise e, c') => e = PersistenceError
  end /\
  durable (snd (cursor_execute sv s c)) = durable c /\
  sent (snd (cursor_execute sv s c)) = sent c ++ [s].
Proof.
  unfold cursor_execute.
  destruct (rejects sv (List.length (sent c)) s); simpl; [auto|].
  destruct (run_statement s (session c)); simpl; auto.
Qed.

(** The loop never touches the committed data; when it raises, the
    statements sent are an initial part of the insertions; when it ends, all
    of them were sent and the session holds all the records. *)
Lemma insert_rows_cases (sv : server) (t : string) (df : list top_row) :
  forall c,
    durable (snd (insert_rows sv t df c)) = durable c /\
    match insert_rows sv t df c with
    | (Ok _, c') =>
        sent c' = sent c ++ inserts t df /\
        (forall rows, session c t = Some rows ->
           session c' t = Some (rows ++ map record_of df)) /\
        (forall t', t' <> t -> session c' t' = session c t')
    | (Raise e, c') =>
        e = PersistenceError /\
        exists n, (n <= List.length df)%nat /\
                  sent c' = sent c ++ firstn n (inserts t df)
    end.
Proof.
  induction df as [|r df IH]; intro c; simpl.
  - unfold ret; simpl. split; [reflexivity|]. split; [now rewrite app_nil_r|].
    split; [|reflexivity]. intros rows ->. now rewrite app_nil_r.
  - unfold and_then.
    pose proof (cursor_execute_cases sv (InsertInto t (record_of r)) c)
      as [H1 [H2 H3]].
    destruct (cursor_execute sv (InsertInto t (record_of r)) c)
      as [[[]|e] c1]; simpl in *.
    + destruct (IH c1) as [D M]. split; [congruence|].
      destruct (insert_rows sv t df c1) as [[[]|e] c2]; simpl in *.
      * destruct M as [M1 [M2 M3]]. split; [|split].
        -- rewrite M1, H3, <- app_assoc. reflexivity.
        -- intros rows Hrows. rewrite Hrows in H1.
           injection H1 as H1.
           rewrite (M2 (rows ++ [record_of r])).
           ++ now rewrite <- app_assoc.
           ++ rewrite <- H1. apply set_table_same.
        -- intros t' N. rewrite (M3 t' N).
           destruct (session c t) as [rows|]; [|discriminate].
           injection H1 as H1. rewrite <- H1. now apply set_table_other.
      * destruct M as [-> [n [Hn M]]]. split; [reflexivity|].
        exists (S n). split; [lia|].
        rewrite M, H3, <- app_assoc. reflexivity.
    + split; [exact H2|]. split; [exact H1|].
      exists 1%nat. split; [lia|]. rewrite H3. reflexivity.
Qed.



(** * Further properties *)

(** ** The join *)

(** X1: when the two merges go through, the joined rows are exactly the
    combinations of an interaction, a movie with the interaction's item id
    and a user with the interaction's user id. *)
Theorem joined_rows_are_the_matching_triples (ratings : list rating_row)
    (movies : list movie_row) (users : list user_row)
    (joined : list joined_row)
    (Ht : typed_keys ratings movies users)
    (E : merge_datasets ratings movies users = Ok joined)
    (r : rating_row) (m : movie_row) (u : user_row) :
  In (r, m, u) joined
  <-> In r ratings /\ In m movies /\ In u users /\
      r_item_id r = m_movie_id m /\ r_user_id r = u_user_id u.
Proof.
  apply merge_datasets_ok in E. subst joined. apply in_join_datasets.
Qed.

Lemma joined_rows_are_the_matching_triples_witness :
  typed_keys (ratings_of scenario) (movies_of scenario) (users_of scenario) /\
  merge_datasets (ratings_of scenario) (movies_of scenario)
    (users_of scenario)
  = Ok (join_datasets (ratings_of scenario) (movies_of scenario)
          (users_of scenario)) /\
  forall r m u,
    In (r, m, u) (join_datasets (ratings_of scenario) (movies_of scenario)
                    (users_of scenario))
    <-> In r (ratings_of scenario) /\ In m (movies_of scenario) /\
        In u (users_of scenario) /\
        r_item_id r = m_movie_id m /\ r_user_id r = u_user_id u.
Proof.
  assert (T : typed_keys (ratings_of scenario) (movies_of scenario)
                (users_of scenario))
    by (repeat split; intro H; discriminate H).
  assert (E : merge_datasets (ratings_of scenario) (movies_of scenario)
                (users_of scenario)
              = Ok (join_datasets (ratings_of scenario) (movies_of scenario)
                      (users_of scenario))) by reflexivity.
  split; [exact T|]. split; [exact E|].
  exact (joined_rows_are_the_matching_triples _ _ _ _ T E).
Defined.

(** X2: when the two merges go through, the number of joined rows is the
    sum, over the interactions, of the number of movies with its item id
    times the number of users with its user id. *)
Theorem joined_rows_count (ratings : list rating_row)
    (movies : list movie_row) (users : list user_row)
    (joined : list joined_row)
    (Ht : typed_keys ratings movies users)
    (E : merge_datasets ratings movies users = Ok joined) :
  List.length joined
  = list_sum
      (map (fun r =>
              (List.length (matches m_movie_id (r_item_id r) movies)
               * List.length (matches u_user_id (r_user_id r) users))%nat)
           ratings).
Proof.
  apply merge_datasets_ok in E. subst joined. clear Ht.
  induction ratings as [|r rs IH]; [reflexivity|].
  change (r :: rs) with ([r] ++ rs).
  rewrite join_datasets_app, length_app, join_datasets_one_length, IH.
  reflexivity.
Qed.

Lemma joined_rows_count_witness :
  typed_keys (ratings_of duplicated_movie) (movies_of duplicated_movie)
    (users_of duplicated_movie) /\
  merge_datasets (ratings_of duplicated_movie) (movies_of duplicated_movie)
    (users_of duplicated_movie)
  = Ok (join_datasets (ratings_of duplicated_movie)
          (movies_of duplicated_movie) (users_of duplicated_movie)) /\
  List.length (join_datasets (ratings_of duplicated_movie)
                 (movies_of duplicated_movie) (users_of duplicated_movie))
  = 2%nat.
Proof.
  assert (T : typed_keys (ratings_of duplicated_movie)
                (movies_of duplicated_movie) (users_of duplicated_movie))
    by (repeat split; intro H; discriminate H).
  assert (E : merge_datasets (ratings_of duplicated_movie)
                (movies_of duplicated_movie) (users_of duplicated_movie)
              = Ok (join_datasets (ratings_of duplicated_movie)
                      (movies_of duplicated_movie)
                      (users_of duplicated_movie))) by reflexivity.
  split; [exact T|]. split; [exact E|].
  exact (joined_rows_count _ _ _ _ T E).
Defined.

(** X3: when no movie id and no user id is recorded twice and the two
    merges go through, the joined rows are the interactions that have their
    movie and their user, each once and in the order of the ratings file. *)
Theorem joined_rows_follow_the_ratings (ratings : list rating_row)
    (movies : list movie_row) (users : list user_row)
    (joined : list joined_row)
    (Hm : NoDup (map m_movie_id movies)) (Hu : NoDup (map u_user_id users))
    (Ht : typed_keys ratings movies users)
    (E : merge_datasets ratings movies users = Ok joined) :
  map interaction joined = filter (matchedb movies users) ratings.
Proof.
  apply merge_datasets_ok in E. subst joined.
  now apply join_datasets_unique_keys.
Qed.

Lemma joined_rows_follow_the_ratings_witness :
  NoDup (map m_movie_id (movies_of scenario)) /\
  NoDup (map u_user_id (users_of scenario)) /\
  typed_keys (ratings_of scenario_twice) (movies_of scenario)
    (users_of scenario) /\
  merge_datasets (ratings_of scenario_twice) (movies_of scenario)
    (users_of scenario)
  = Ok (join_datasets (ratings_of scenario_twice) (movies_of scenario)
          (users_of scenario)) /\
  map interaction
    (join_datasets (ratings_of scenario_twice) (movies_of scenario)
       (users_of scenario))
  = ratings_of scenario_twice.
Proof.
  assert (Hm : NoDup (map m_movie_id (movies_of scenario)))
    by (repeat constructor; simpl; tauto).
  assert (Hu : NoDup (map u_user_id (users_of scenario)))
    by (repeat constructor; simpl; tauto).
  assert (T : typed_keys (ratings_of scenario_twice) (movies_of scenario)
                (users_of scenario))
    by (repeat split; intro H; discriminate H).
  assert (E : merge_datasets (ratings_of scenario_twice) (movies_of scenario)
                (users_of scenario)
              = Ok (join_datasets (ratings_of scenario_twice)
                      (movies_of scenario) (users_of scenario)))
    by reflexivity.
  split; [exact Hm|]. split; [exact Hu|]. split; [exact T|].
  split; [exact E|].
  exact (joined_rows_follow_the_ratings (ratings_of scenario_twice)
           (movies_of scenario) (users_of scenario) _ Hm Hu T E).
Defined.

(** ** Age groups and result rows *)

(** X4: the age groups follow the ages: of two non-negative ages, the larger
    one gets the same label or a later one in the declared order. *)
Theorem cut_is_monotone (a b : Z) (Ha : 0 <= a) (Hab : a <= b) :
  exists la lb,
    cut (Some a) age_bins age_labels = Some la /\
    cut (Some b) age_bins age_labels = Some lb /\
    (index_of la age_labels <= index_of lb age_labels)%nat.
Proof.
  split_age a; try lia; split_age b; try lia.
  all: eexists; eexists; split; [reflexivity|split; [reflexivity|]].
  all: vm_compute; lia.
Qed.

Lemma cut_is_monotone_witness :
  0 <= 22 /\ 22 <= 40 /\
  exists la lb,
    cut (Some 22) age_bins age_labels = Some la /\
    cut (Some 40) age_bins age_labels = Some lb /\
    (index_of la age_labels <= index_of lb age_labels)%nat.
Proof.
  split; [lia|]. split; [lia|].
  apply (cut_is_monotone 22 40); lia.
Defined.

Lemma aggregate_keys (merged_data : list merged_row) :
  map (fun t => (t_age_group t, t_occupation t)) (aggregate merged_data)
  = list_prod age_labels (levels (map occupation merged_data)).
Proof.
  unfold aggregate, top_genres_df. rewrite map_map.
  rewrite <- occupation_prepare, <- summary_keys.
  apply map_ext. now intros [[b o] v].
Qed.

(** X5: the result rows come label by label in the declared order of the
    age labels and, within a label, by strictly increasing occupation; there
    are five rows for each distinct occupation of the joined data. *)
Theorem result_rows_are_sorted (merged_data : list merged_row) :
  map (fun t => (t_age_group t, t_occupation t)) (aggregate merged_data)
  = list_prod age_labels (levels (map occupation merged_data)) /\
  StronglySorted slt (levels (map occupation merged_data)) /\
  (forall o, In o (levels (map occupation merged_data))
             <-> In (Some o) (map occupation merged_data)) /\
  List.length (aggregate merged_data)
  = (5 * List.length (levels (map occupation merged_data)))%nat.
Proof.
  split; [apply aggregate_keys|]. split; [apply levels_sorted|].
  split; [intro o; apply in_levels|].
  rewrite <- (length_map (fun t => (t_age_group t, t_occupation t))).
  rewrite aggregate_keys, length_prod. reflexivity.
Qed.

Lemma no_member_no_rows (merged_data : list merged_row) (b o : string) :
  (forall m, In m merged_data ->
     ~ (cut (age m) age_bins age_labels = Some b /\ occupation m = Some o)) ->
  filter (in_group b o) (map prepare merged_data) = [].
Proof.
  induction merged_data as [|m ms IH]; intro H; [reflexivity|].
  simpl. destruct (in_group b o (prepare m)) eqn:E.
  - apply in_group_prepare in E. exfalso. apply (H m); [now left|exact E].
  - apply IH. intros m' Hm'. apply H. now right.
Qed.

Lemma top_genres_of_zeros :
  top_genres (repeat 0 (List.length genre_columns)) = firstn 5 genre_columns.
Proof. reflexivity. Qed.

(** X6: a result row whose group has no joined row (a zero-filled group)
    lists the first five genre columns: unknown, Action, Adventure,
    Animation, Children's. *)
Theorem empty_group_lists_first_columns (merged_data : list merged_row)
    (t : top_row) (Ht : In t (aggregate merged_data))
    (Hempty : forall m, In m merged_data ->
       ~ (cut (age m) age_bins age_labels = Some (t_age_group t) /\
          occupation m = Some (t_occupation t))) :
  t_top_genres t = firstn 5 genre_columns /\
  t_top_genres t
  = ["unknown"; "Action"; "Adventure"; "Animation"; "Children's"].
Proof.
  rewrite (aggregate_row _ _ Ht).
  rewrite (empty_group_sums_to_zero _ _ _ (no_member_no_rows _ _ _ Hempty)).
  split; reflexivity.
Qed.

Lemma empty_group_lists_first_columns_witness :
  In (mk_top "<20" "engineer"
        ["unknown"; "Action"; "Adventure"; "Animation"; "Children's"])
     (aggregate scenario_merged) /\
  t_top_genres
    (mk_top "<20" "engineer"
       ["unknown"; "Action"; "Adventure"; "Animation"; "Children's"])
  = firstn 5 genre_columns.
Proof.
  assert (H : In (mk_top "<20" "engineer"
                    ["unknown"; "Action"; "Adventure"; "Animation";
                     "Children's"])
                 (aggregate scenario_merged))
    by (vm_compute; tauto).
  split; [exact H|].
  refine (proj1 (empty_group_lists_first_columns scenario_merged _ H _)).
  intros m [<-|[]] [E _]. vm_compute in E. discriminate E.
Defined.

Lemma levels_without_none (c1 c2 : list (option string)) :
  levels (c1 ++ None :: c2) = levels (c1 ++ c2).
Proof.
  unfold levels, dropna. now rewrite !flat_map_app.
Qed.

(** X7: a joined row without occupation (NaN) changes nothing in the
    result. *)
Theorem row_without_occupation_changes_nothing (m : merged_row)
    (before after : list merged_row) (Ho : occupation m = None) :
  aggregate (before ++ m :: after) = aggregate (before ++ after).
Proof.
  unfold aggregate, top_genres_df. f_equal.
  unfold genre_summary.
  rewrite !occupation_prepare, !map_app. simpl map.
  rewrite Ho, levels_without_none.
  apply flat_map_ext. intro b. apply map_ext. intro o.
  f_equal. unfold group_sum. apply map_ext. intro j.
  rewrite !filter_app. simpl.
  replace (in_group b o (prepare m)) with false; [reflexivity|].
  unfold in_group, prepare. simpl. rewrite Ho. simpl.
  now rewrite andb_false_r.
Qed.

Lemma row_without_occupation_changes_nothing_witness :
  occupation (mk_merged (Some (Int 2)) (Some (Int 1)) (Some (Int 4)) None
                [] (Some 30) None) = None /\
  aggregate (scenario_merged
             ++ [mk_merged (Some (Int 2)) (Some (Int 1)) (Some (Int 4)) None
                   [] (Some 30) None])
  = aggregate (scenario_merged ++ []).
Proof.
  split; [reflexivity|].
  exact (row_without_occupation_changes_nothing
           (mk_merged (Some (Int 2)) (Some (Int 1)) (Some (Int 4)) None
              [] (Some 30) None)
           scenario_merged [] eq_refl).
Defined.

Lemma insert_level_fresh_length (s : string) (l : list string) :
  ~ In s l ->
  List.length (insert_level s l) = S (List.length l).
Proof.
  induction l as [|x l IH]; simpl; intro H; [reflexivity|].
  destruct (String_as_OT.compare_spec s x) as [E|L|G]; simpl.
  - exfalso. apply H. left. symmetry. exact E.
  - reflexivity.
  - rewrite IH; [reflexivity|]. intro F. apply H. now right.
Qed.

Lemma levels_with_one_more (c1 c2 : list (option string)) (o : string) :
  levels (c1 ++ Some o :: c2) = insert_level o (levels (c1 ++ c2)).
Proof.
  rewrite (levels_permutation (c1 ++ Some o :: c2) (Some o :: c1 ++ c2)).
  - reflexivity.
  - apply Permutation_sym, Permutation_middle.
Qed.

(** X8: a joined row with a negative age still brings its occupation into
    the grouping: if no other row has that occupation, the result gains five
    zero-filled rows for it, one per age label, each listing the first five
    genre columns. *)
Theorem negative_age_row_adds_zero_groups (m : merged_row) (a : Z)
    (o : string) (before after : list merged_row)
    (Ha : age m = Some a) (Hneg : a < 0) (Ho : occupation m = Some o)
    (Hfresh : ~ In (Some o) (map occupation (before ++ after))) :
  (forall b, In b age_labels ->
     In (mk_top b o (firstn 5 genre_columns))
        (aggregate (before ++ m :: after))) /\
  (forall t, In t (aggregate (before ++ after)) -> t_occupation t <> o) /\
  List.length (aggregate (before ++ m :: after))
  = (List.length (aggregate (before ++ after)) + 5)%nat.
Proof.
  split; [|split].
  - intros b Hb. apply in_aggregate. exists b, o.
    split; [exact Hb|]. split.
    + rewrite map_app. apply in_or_app. right. left. exact Ho.
    + f_equal. rewrite <- top_genres_of_zeros. f_equal. symmetry.
      apply empty_group_sums_to_zero, no_member_no_rows.
      intros m' Hm' [Hc Hoc]. apply in_app_or in Hm'.
      destruct Hm' as [Hm'|[<-|Hm']].
      * apply Hfresh. rewrite <- Hoc. apply in_map, in_or_app. now left.
      * rewrite Ha, cut_age_value in Hc.
        destruct (Z.ltb_spec a 0); [discriminate|lia].
      * apply Hfresh. rewrite <- Hoc. apply in_map, in_or_app. now right.
  - intros t Ht E. apply in_aggregate in Ht.
    destruct Ht as [b [o' [_ [Hin ->]]]]. simpl in E. subst o'.
    now apply Hfresh.
  - rewrite <- !(length_map (fun t => (t_age_group t, t_occupation t))).
    rewrite !aggregate_keys, !length_prod, !map_app. simpl map.
    rewrite Ho, levels_with_one_more, insert_level_fresh_length.
    + rewrite <- map_app. simpl. lia.
    + rewrite in_levels, <- map_app. exact Hfresh.
Qed.

Lemma negative_age_row_adds_zero_groups_witness :
  (-3 < 0) /\
  ~ In (Some "artist") (map occupation (scenario_merged ++ [])) /\
  List.length
    (aggregate (scenario_merged
                ++ [mk_merged (Some (Int 2)) (Some (Int 1)) (Some (Int 4))
                      None [] (Some (-3)) (Some "artist")]))
  = (List.length (aggregate (scenario_merged ++ [])) + 5)%nat.
Proof.
  assert (H : -3 < 0) by lia.
  assert (F : ~ In (Some "artist") (map occupation (scenario_merged ++ [])))
    by (vm_compute; intros [E|[]]; discriminate E).
  split; [exact H|]. split; [exact F|].
  exact (proj2 (proj2
    (negative_age_row_adds_zero_groups
       (mk_merged (Some (Int 2)) (Some (Int 1)) (Some (Int 4)) None []
          (Some (-3)) (Some "artist"))
       (-3) "artist" scenario_merged [] eq_refl H eq_refl F))).
Defined.

(** ** The stored text *)

Lemma string_append_assoc (a b c : string) :
  ((a ++ b) ++ c)%string = (a ++ (b ++ c))%string.
Proof. induction a as [|x a IH]; simpl; [reflexivity|now rewrite IH]. Qed.

(** The first occurrence of a character splits a string in one way only. *)
Lemma split_at_char (q : ascii) (g g' r r' : string) :
  has_char q g = false -> has_char q g' = false ->
  (g ++ String q r)%string = (g' ++ String q r')%string ->
  g = g' /\ r = r'.
Proof.
  revert g'. induction g as [|x g IH]; intros [|y g'] H H' E; simpl in *.
  - injection E as E. now split.
  - injection E as E1 E2. subst y.
    rewrite Ascii.eqb_refl in H'. discriminate.
  - injection E as E1 E2. subst x.
    rewrite Ascii.eqb_refl in H. discriminate.
  - injection E as E1 E2. subst y.
    apply orb_false_iff in H, H'.
    destruct (IH g' (proj2 H) (proj2 H') E2) as [-> ->]. now split.
Qed.

Lemma array_body_cons (x : string) (l : list string) :
  (String.concat ", " (map (fun genre => dquote ++ genre ++ dquote) (x :: l))
   ++ "}")%string
  = String (ascii_of_nat 34)
      (x ++ String (ascii_of_nat 34)
              match l with
              | [] => "}"
              | _ :: _ =>
                  ", " ++ (String.concat ", "
                             (map (fun genre => dquote ++ genre ++ dquote) l)
                           ++ "}")
              end)%string.
Proof.
  destruct l as [|y l].
  - cbn [map String.concat]. unfold dquote. cbn [append].
    now rewrite string_append_assoc.
  - cbn [map String.concat]. unfold dquote. cbn [append].
    rewrite !string_append_assoc. cbn [append]. reflexivity.
Qed.

Lemma array_body_injective (l1 l2 : list string) :
  Forall quote_free l1 -> Forall quote_free l2 ->
  (String.concat ", " (map (fun genre => dquote ++ genre ++ dquote) l1)
   ++ "}")%string
  = (String.concat ", " (map (fun genre => dquote ++ genre ++ dquote) l2)
     ++ "}")%string ->
  l1 = l2.
Proof.
  intro F1. revert l2.
  induction F1 as [|x l1 Hx F1 IH]; intros l2 F2 E.
  - destruct l2 as [|y l2]; [reflexivity|].
    rewrite array_body_cons in E. discriminate E.
  - destruct F2 as [|y l2 Hy F2].
    + rewrite array_body_cons in E. discriminate E.
    + rewrite !array_body_cons in E. injection E as E.
      apply split_at_char in E; [|exact Hx|exact Hy].
      destruct E as [-> E]. f_equal.
      destruct l1 as [|x1 l1], l2 as [|y1 l2]; try reflexivity;
        try discriminate E.
      injection E as E. now apply IH.
Qed.

Lemma genre_columns_quote_free : Forall quote_free genre_columns.
Proof. repeat constructor. Qed.

Lemma genres_array_injective (l1 l2 : list string) :
  incl l1 genre_columns -> incl l2 genre_columns ->
  genres_array l1 = genres_array l2 -> l1 = l2.
Proof.
  intros I1 I2 E. unfold genres_array in E. cbn [append] in E.
  injection E as E.
  pose proof genre_columns_quote_free as Q. rewrite Forall_forall in Q.
  apply array_body_injective; [| |exact E];
    apply Forall_forall; intros g Hg; apply Q; auto.
Qed.

Lemma aggregate_incl (merged_data : list merged_row) (t : top_row) :
  In t (aggregate merged_data) -> incl (t_top_genres t) genre_columns.
Proof.
  intro Ht. rewrite (aggregate_row _ _ Ht).
  apply top_genres_ranked, group_sum_length.
Qed.

(** X9: the record stored for a result row determines the row: two result
    rows (of any runs) stored as the same record have the same age group,
    the same occupation and the same genres in the same order. *)
Theorem stored_record_determines_the_row
    (merged_data merged_data' : list merged_row) (t t' : top_row)
    (Ht : In t (aggregate merged_data)) (Ht' : In t' (aggregate merged_data'))
    (E : record_of t = record_of t') :
  t = t'.
Proof.
  pose proof (aggregate_incl _ _ Ht) as I.
  pose proof (aggregate_incl _ _ Ht') as I'.
  destruct t as [b o l], t' as [b' o' l']. unfold record_of in E.
  cbn [t_age_group t_occupation t_top_genres] in *.
  pose proof (f_equal pg_age_group E) as Eb.
  pose proof (f_equal pg_occupation E) as Eo.
  pose proof (f_equal pg_top_genres E) as El.
  cbn [pg_age_group pg_occupation pg_top_genres] in Eb, Eo, El.
  now rewrite Eb, Eo, (genres_array_injective l l' I I' El).
Qed.

Lemma stored_record_determines_the_row_witness :
  In (mk_top "<20" "engineer" (firstn 5 genre_columns))
     (aggregate scenario_merged) /\
  mk_top "<20" "engineer" (firstn 5 genre_columns)
  = mk_top "<20" "engineer" (firstn 5 genre_columns).
Proof.
  assert (H : In (mk_top "<20" "engineer" (firstn 5 genre_columns))
                 (aggregate scenario_merged))
    by (vm_compute; tauto).
  split; [exact H|].
  exact (stored_record_determines_the_row scenario_merged scenario_merged
           _ _ H H eq_refl).
Defined.

(** ** Rows with a negative age, and the persisted output *)

Lemma negative_age_no_group (m : merged_row) (a : Z) :
  age m = Some a -> a < 0 -> age_group (prepare m) = None.
Proof.
  intros Ha Hneg. unfold prepare; simpl. rewrite Ha, cut_age_value.
  destruct (Z.ltb_spec a 0); [reflexivity|lia].
Qed.

Lemma ungrouped_row_adds_nothing (m : merged_row)
    (before after : list merged_row) (b o : string) :
  age_group (prepare m) = None ->
  group_sum (map prepare (before ++ m :: after)) b o
  = group_sum (map prepare (before ++ after)) b o.
Proof.
  intro G. unfold group_sum. apply map_ext. intro j.
  rewrite !map_app, !filter_app. simpl.
  replace (in_group b o (prepare m)) with false; [reflexivity|].
  unfold in_group. now rewrite G.
Qed.

Lemma in_occupations_middle (m : merged_row) (before after : list merged_row)
    (x : option string) :
  In x (map occupation (before ++ m :: after))
  <-> x = occupation m \/ In x (map occupation (before ++ after)).
Proof.
  rewrite !map_app. simpl. rewrite !in_app_iff. simpl.
  split; intros [H|H]; auto; destruct H as [H|H]; auto.
Qed.

(** C9, the claim as stated fails: the only joined row has age -3, and yet
    five records are persisted for its occupation; without the interaction
    nothing is persisted. *)
Lemma negative_age_row_is_persisted :
  map age (merged_data_of negative_artist) = [Some (-3)] /\
  merged_data_of no_interaction = [] /\
  map pg_occupation
    (rows_of (snd (execute negative_artist reliable_server empty_database)
                "top_genres"))
  = ["artist"; "artist"; "artist"; "artist"; "artist"] /\
  rows_of (snd (execute no_interaction reliable_server empty_database)
             "top_genres")
  = [].
Proof. repeat split; reflexivity. Qed.

(** C9, as amended: a joined row with a negative age gets no age group,
    belongs to no group and adds nothing to any summed vector.  It is left
    out of the output when its occupation is missing or occurs in another
    joined row: the result is then the same as without it.  Otherwise its
    occupation still enters the grouping, and the output has, besides the
    rows obtained without it, one zero-filled row per age label for that
    occupation, listing the first five genre columns. *)
Theorem negative_age_row_adds_to_no_sum (m : merged_row) (a : Z)
    (before after : list merged_row)
    (Ha : age m = Some a) (Hneg : a < 0) :
  age_group (prepare m) = None /\
  (forall b o, member b o m = false) /\
  (forall b o, group_sum (map prepare (before ++ m :: after)) b o
               = group_sum (map prepare (before ++ after)) b o) /\
  (occupation m = None \/
   In (occupation m) (map occupation (before ++ after)) ->
   aggregate (before ++ m :: after) = aggregate (before ++ after)) /\
  (forall o, occupation m = Some o ->
     ~ In (Some o) (map occupation (before ++ after)) ->
     forall t,
       In t (aggregate (before ++ m :: after))
       <-> In t (aggregate (before ++ after)) \/
           exists b, In b age_labels /\
                     t = mk_top b o (firstn 5 genre_columns)).
Proof.
  pose proof (negative_age_no_group m a Ha Hneg) as G.
  assert (S : forall b o,
    group_sum (map prepare (before ++ m :: after)) b o
    = group_sum (map prepare (before ++ after)) b o)
    by (intros b o; now apply ungrouped_row_adds_nothing).
  split; [exact G|]. split; [|split; [exact S|split]].
  - intros b o. rewrite <- in_group_member. unfold in_group. now rewrite G.
  - intro H. unfold aggregate, top_genres_df. f_equal. unfold genre_summary.
    replace (levels (map row_occupation (map prepare (before ++ m :: after))))
      with (levels (map row_occupation (map prepare (before ++ after)))).
    + apply flat_map_ext. intro b. apply map_ext. intro o. now rewrite S.
    + rewrite !occupation_prepare.
      apply sorted_ext; try apply levels_sorted.
      intro x. rewrite !in_levels, in_occupations_middle.
      split; [auto|]. intros [E|E]; [|exact E].
      destruct H as [H|H]; congruence.
  - intros o Ho Hfresh t. rewrite !in_aggregate. split.
    + intros [b [o' [Hb [Hin ->]]]]. rewrite S.
      apply in_occupations_middle in Hin. destruct Hin as [E|Hin].
      * right. exists b. split; [exact Hb|].
        rewrite Ho in E. injection E as ->. f_equal.
        rewrite <- top_genres_of_zeros. f_equal.
        apply empty_group_sums_to_zero, no_member_no_rows.
        intros m' Hm' [_ Hoc]. apply Hfresh. rewrite <- Hoc.
        now apply in_map.
      * left. exists b, o'. auto.
    + intros [[b [o' [Hb [Hin ->]]]]|[b [Hb ->]]].
      * exists b, o'. split; [exact Hb|]. split.
        -- apply in_occupations_middle. now right.
        -- now rewrite S.
      * exists b, o. split; [exact Hb|]. split.
        -- apply in_occupations_middle. left. now rewrite Ho.
        -- f_equal. rewrite S, <- top_genres_of_zeros. f_equal. symmetry.
           apply empty_group_sums_to_zero, no_member_no_rows.
           intros m' Hm' [_ Hoc]. apply Hfresh. rewrite <- Hoc.
           now apply in_map.
Qed.

Lemma negative_age_row_adds_to_no_sum_witness :
  (-3 < 0) /\
  map age (merged_data_of negative_age) = [Some 22; Some (-3)] /\
  aggregate (merged_data_of negative_age) = aggregate scenario_merged.
Proof.
  assert (H : -3 < 0) by lia.
  split; [exact H|]. split; [reflexivity|].
  refine (proj1 (proj2 (proj2 (proj2
    (negative_age_row_adds_to_no_sum
       (nth 1 (merged_data_of negative_age)
            (mk_merged None None None None [] None None))
       (-3) scenario_merged [] eq_refl H)))) _).
  right. vm_compute. tauto.
Defined.

(** ** Runs on a server that refuses nothing *)

Lemma insert_rows_reliable (sv : server) (t : string) (df : list top_row) :
  reliable sv ->
  forall c rows, session c t = Some rows ->
    fst (insert_rows sv t df c) = Ok tt.
Proof.
  intros [_ Hr]. induction df as [|r df IH]; intros c rows Hs; simpl.
  - reflexivity.
  - unfold and_then, cursor_execute. rewrite Hr. simpl. rewrite Hs.
    apply (IH _ (rows ++ [record_of r])). simpl. apply set_table_same.
Qed.

Lemma save_to_postgres_reliable (sv : server) (t : string)
    (df : list top_row) (db : database) :
  reliable sv ->
  exists c,
    save_to_postgres sv t df db = (Ok tt, c) /\
    sent c = script t df /\
    durable c t = Some (rows_of (db t) ++ map record_of df) /\
    forall t', t' <> t -> durable c t' = db t'.
Proof.
  intros Hsv. pose proof Hsv as [Hc Hr].
  unfold save_to_postgres. rewrite Hc.
  unfold and_then at 1. unfold cursor_execute at 1. rewrite Hr.
  set (c1 := match run_statement (CreateTableIfNotExists t)
                     (session (connect db)) with
             | Some db' => _
             | None => _
             end).
  assert (S1 : exists s1,
            c1 = (Ok tt, mk_conn db s1 [CreateTableIfNotExists t]) /\
            s1 t = Some (rows_of (db t)) /\
            forall t', t' <> t -> s1 t' = db t').
  { subst c1. simpl. destruct (db t) as [rows|] eqn:E.
    - exists db. split; [reflexivity|]. split; [exact E|reflexivity].
    - exists (set_table t [] db). split; [reflexivity|].
      split; [apply set_table_same|].
      intros t' N. now apply set_table_other. }
  destruct S1 as [s1 [-> [S1 S2]]].
  unfold and_then.
  pose proof (insert_rows_reliable sv t df Hsv
                (mk_conn db s1 [CreateTableIfNotExists t]) _ S1) as F.
  destruct (insert_rows_cases sv t df
              (mk_conn db s1 [CreateTableIfNotExists t])) as [D M].
  destruct (insert_rows sv t df (mk_conn db s1 [CreateTableIfNotExists t]))
    as [[[]|e] c2]; [|discriminate F].
  destruct M as [M1 [M2 M3]]. simpl in *.
  eexists. split; [reflexivity|]. simpl. split; [exact M1|]. split.
  - now apply M2.
  - intros t' N. rewrite (M3 t' N). now apply S2.
Qed.

Lemma execute_reliable (config : paths) (sv : server) (db : database)
    (merged_data : list merged_row) :
  reliable sv -> load_and_merge config = Ok merged_data ->
  fst (execute config sv db) = Ok tt /\
  snd (execute config sv db) "top_genres"
  = Some (rows_of (db "top_genres")
          ++ map record_of (aggregate merged_data)) /\
  forall t', t' <> "top_genres" -> snd (execute config sv db) t' = db t'.
Proof.
  intros Hsv L. unfold execute. rewrite L.
  destruct (save_to_postgres_reliable sv "top_genres"
              (aggregate merged_data) db Hsv) as [c [-> [_ [H1 H2]]]].
  simpl. auto.
Qed.

Lemma reliable_server_is_reliable : reliable reliable_server.
Proof. split; reflexivity. Qed.

(** X10: for sources in the format of the data set that load and merge, sums
    that are exact and a server that refuses nothing, the run succeeds and
    leaves in "top_genres" the records the table had, followed by one record
    per result row in the order of the rows; the table is created if it did
    not exist and no other table changes. *)
Theorem execute_appends_the_result (config : paths) (sv : server)
    (db : database) (merged_data : list merged_row)
    (Hwf : well_formed config = true)
    (Hsv : reliable sv) (Hload : load_and_merge config = Ok merged_data)
    (Hexact : exact_sums merged_data) :
  fst (execute config sv db) = Ok tt /\
  snd (execute config sv db) "top_genres"
  = Some (rows_of (db "top_genres")
          ++ map record_of (aggregate merged_data)) /\
  forall t', t' <> "top_genres" -> snd (execute config sv db) t' = db t'.
Proof.
  unfold execute. rewrite Hload.
  destruct (save_to_postgres_reliable sv "top_genres"
              (aggregate merged_data) db Hsv) as [c [-> [_ [H1 H2]]]].
  simpl. split; [reflexivity|]. split; [exact H1|exact H2].
Qed.

Lemma execute_appends_the_result_witness :
  well_formed scenario = true /\
  reliable reliable_server /\
  load_and_merge scenario = Ok scenario_merged /\
  exact_sums scenario_merged /\
  snd (execute scenario reliable_server empty_database) "top_genres"
  = Some (rows_of (empty_database "top_genres")
          ++ map record_of (aggregate scenario_merged)).
Proof.
  assert (E : exact_sums scenario_merged)
    by (apply (exact_sums_check 19); vm_compute; reflexivity).
  split; [reflexivity|].
  split; [exact reliable_server_is_reliable|]. split; [reflexivity|].
  split; [exact E|].
  exact (proj1 (proj2 (execute_appends_the_result scenario reliable_server
                         empty_database scenario_merged eq_refl
                         reliable_server_is_reliable eq_refl E))).
Defined.

(** X11: nothing is deduplicated: under the same conditions, running the
    operator twice on the same sources stores every record twice, the second
    set after the first. *)
Theorem second_run_duplicates_the_records (config : paths) (sv : server)
    (db : database) (merged_data : list merged_row)
    (Hwf : well_formed config = true)
    (Hsv : reliable sv) (Hload : load_and_merge config = Ok merged_data)
    (Hexact : exact_sums merged_data) :
  fst (execute config sv (snd (execute config sv db))) = Ok tt /\
  snd (execute config sv (snd (execute config sv db))) "top_genres"
  = Some (rows_of (db "top_genres")
          ++ map record_of (aggregate merged_data)
          ++ map record_of (aggregate merged_data)).
Proof.
  destruct (execute_reliable config sv db merged_data Hsv Hload)
    as [_ [H1 _]].
  destruct (execute_reliable config sv (snd (execute config sv db))
              merged_data Hsv Hload) as [H2 [H3 _]].
  split; [exact H2|]. rewrite H3, H1. simpl. now rewrite <- app_assoc.
Qed.

Lemma second_run_duplicates_the_records_witness :
  well_formed scenario = true /\
  reliable reliable_server /\
  load_and_merge scenario = Ok scenario_merged /\
  exact_sums scenario_merged /\
  List.length
    (rows_of (snd (execute scenario reliable_server
                     (snd (execute scenario reliable_server empty_database)))
                "top_genres"))
  = 10%nat.
Proof.
  assert (E : exact_sums scenario_merged)
    by (apply (exact_sums_check 19); vm_compute; reflexivity).
  split; [reflexivity|].
  split; [exact reliable_server_is_reliable|]. split; [reflexivity|].
  split; [exact E|].
  rewrite (proj2 (second_run_duplicates_the_records scenario reliable_server
                    empty_database scenario_merged eq_refl
                    reliable_server_is_reliable eq_refl E)).
  reflexivity.
Defined.

Lemma load_and_merge_ok (config : paths) (merged_data : list merged_row) :
  load_and_merge config = Ok merged_data ->
  merged_data
  = map merged_of
      (join_datasets (ratings_of config) (movies_of config)
         (users_of config)).
Proof.
  unfold load_and_merge, ratings_of, movies_of, users_of, frame_of.
  destruct (read_csv ratings_names (ratings_data_path config));
    simpl; [|discriminate].
  destruct (read_csv movies_names (movies_data_path config));
    simpl; [|discriminate].
  destruct (read_csv users_names (user_data_path config));
    simpl; [|discriminate].
  destruct (merge_datasets _ _ _) as [joined|e] eqn:E; simpl; [|discriminate].
  apply merge_datasets_ok in E. subst joined.
  unfold numeric_ages. destruct (existsb _ _); [discriminate|].
  now intros [= <-].
Qed.

Lemma all_unmatched_no_rows (ratings : list rating_row)
    (movies : list movie_row) (users : list user_row) :
  (forall r, In r ratings -> ~ matched movies users r) ->
  join_datasets ratings movies users = [].
Proof.
  induction ratings as [|r rs IH]; intro H; [reflexivity|].
  change (r :: rs) with ([r] ++ rs).
  rewrite join_datasets_app, unmatched_gives_no_row, IH.
  - reflexivity.
  - intros r' Hr'. apply H. now right.
  - apply not_true_is_false. intro F. apply matchedb_matched in F.
    exact (H r (or_introl eq_refl) F).
Qed.

(** X12: under the same conditions, when no interaction has both its movie
    and its user, the run still succeeds: it creates the table if needed and
    inserts no record. *)
Theorem run_without_joined_rows_stores_nothing (config : paths)
    (sv : server) (db : database) (merged_data : list merged_row)
    (Hwf : well_formed config = true)
    (Hsv : reliable sv) (Hload : load_and_merge config = Ok merged_data)
    (Hnone : forall r, In r (ratings_of config) ->
               ~ matched (movies_of config) (users_of config) r) :
  merged_data = [] /\
  fst (execute config sv db) = Ok tt /\
  snd (execute config sv db) "top_genres" = Some (rows_of (db "top_genres")).
Proof.
  assert (E : merged_data = []).
  { rewrite (load_and_merge_ok _ _ Hload).
    now rewrite all_unmatched_no_rows. }
  split; [exact E|].
  destruct (execute_reliable config sv db merged_data Hsv Hload)
    as [H1 [H2 _]].
  split; [exact H1|]. rewrite H2, E. simpl. now rewrite app_nil_r.
Qed.

Lemma run_without_joined_rows_stores_nothing_witness :
  well_formed unknown_movie = true /\
  reliable reliable_server /\
  load_and_merge unknown_movie = Ok [] /\
  (forall r, In r (ratings_of unknown_movie) ->
     ~ matched (movies_of unknown_movie) (users_of unknown_movie) r) /\
  snd (execute unknown_movie reliable_server empty_database) "top_genres"
  = Some (rows_of (empty_database "top_genres")).
Proof.
  assert (N : forall r, In r (ratings_of unknown_movie) ->
            ~ matched (movies_of unknown_movie) (users_of unknown_movie) r).
  { intros r [<-|[]] [[E|[]] _]. discriminate E. }
  split; [reflexivity|].
  split; [exact reliable_server_is_reliable|]. split; [reflexivity|].
  split; [exact N|].
  exact (proj2 (proj2 (run_without_joined_rows_stores_nothing unknown_movie
                         reliable_server empty_database [] eq_refl
                         reliable_server_is_reliable eq_refl N))).
Defined.

(** ** The order of the records in the files *)

Lemma aggregate_permutation (merged_data merged_data' : list merged_row) :
  Permutation merged_data merged_data' ->
  aggregate merged_data = aggregate merged_data'.
Proof.
  intro P. unfold aggregate, top_genres_df.
  now rewrite (genre_summary_permutation _ _ (Permutation_map prepare P)).
Qed.

Lemma infer_types_permutation (width : nat)
    (rows rows' : list (list (option string))) :
  Permutation rows rows' ->
  Permutation (infer_types width rows) (infer_types width rows').
Proof.
  intro P. unfold infer_types.
  rewrite (map_ext
             (fun r => map (fun j => convert (numeric_column j rows)
                                       (nth j r None)) (seq 0 width))
             (fun r => map (fun j => convert (numeric_column j rows')
                                       (nth j r None)) (seq 0 width))).
  - now apply Permutation_map.
  - intro r. apply map_ext. intro j. f_equal.
    unfold numeric_column. now apply forallb_permutation.
Qed.

Lemma read_csv_permutation (names : list string)
    (lines lines' : list (list string)) :
  Forall (fun r => (List.length r <= List.length names)%nat)
         (non_blank lines) ->
  Permutation lines lines' ->
  exists frame frame',
    read_csv names (Some lines) = Ok frame /\
    read_csv names (Some lines') = Ok frame' /\
    Permutation frame frame'.
Proof.
  intros N P.
  assert (P' : Permutation (non_blank lines) (non_blank lines'))
    by now apply Permutation_filter.
  assert (N' : Forall (fun r => (List.length r <= List.length names)%nat)
                 (non_blank lines'))
    by exact (Permutation_Forall P' N).
  rewrite (read_csv_narrow names lines N), (read_csv_narrow names lines' N').
  eexists. eexists. split; [reflexivity|]. split; [reflexivity|].
  apply infer_types_permutation. now apply Permutation_map.
Qed.

Lemma join_permutation {L R : Type} (lkey : L -> cell) (rkey : R -> cell)
    (left left' : list L) (right right' : list R) :
  Permutation left left' -> Permutation right right' ->
  Permutation (join lkey rkey left right) (join lkey rkey left' right').
Proof.
  intros Pl Pr. transitivity (join lkey rkey left' right).
  - unfold join. now apply Permutation_flat_map.
  - clear Pl. unfold join.
    induction left' as [|l ls IH]; simpl; [constructor|].
    apply Permutation_app; [|exact IH].
    apply Permutation_map. unfold matches. now apply Permutation_filter.
Qed.

Lemma merge_permutation {L R : Type} (lkey : L -> cell) (rkey : R -> cell)
    (ltext rtext : bool) (left left' : list L) (right right' : list R) :
  Permutation left left' -> Permutation right right' ->
  (exists e, merge lkey rkey ltext rtext left right = Raise e /\
             merge lkey rkey ltext rtext left' right' = Raise e) \/
  (exists rows rows',
     merge lkey rkey ltext rtext left right = Ok rows /\
     merge lkey rkey ltext rtext left' right' = Ok rows' /\
     Permutation rows rows').
Proof.
  intros Pl Pr. pose proof (join_permutation lkey rkey _ _ _ _ Pl Pr) as J.
  unfold merge.
  destruct left as [|l ls].
  { apply Permutation_nil in Pl. subst left'. right.
    eexists. eexists. split; [reflexivity|]. split; [reflexivity|exact J]. }
  destruct left' as [|l' ls'].
  { apply Permutation_sym, Permutation_nil in Pl. discriminate Pl. }
  destruct right as [|r rs].
  { apply Permutation_nil in Pr. subst right'. right.
    eexists. eexists. split; [reflexivity|]. split; [reflexivity|exact J]. }
  destruct right' as [|r' rs'].
  { apply Permutation_sym, Permutation_nil in Pr. discriminate Pr. }
  destruct (Bool.eqb ltext rtext).
  - right. eexists. eexists. split; [reflexivity|].
    split; [reflexivity|exact J].
  - left. exists ValueError. now split.
Qed.

Lemma text_dtype_permutation (column column' : list cell) :
  Permutation column column' -> text_dtype column = text_dtype column'.
Proof. unfold text_dtype. apply existsb_permutation. Qed.

Lemma merge_datasets_permutation (ratings ratings' : list rating_row)
    (movies movies' : list movie_row) (users users' : list user_row) :
  Permutation ratings ratings' -> Permutation movies movies' ->
  Permutation users users' ->
  (exists e, merge_datasets ratings movies users = Raise e /\
             merge_datasets ratings' movies' users' = Raise e) \/
  (exists joined joined',
     merge_datasets ratings movies users = Ok joined /\
     merge_datasets ratings' movies' users' = Ok joined' /\
     Permutation joined joined').
Proof.
  intros Pr Pm Pu. unfold merge_datasets.
  rewrite <- (text_dtype_permutation _ _ (Permutation_map r_item_id Pr)).
  rewrite <- (text_dtype_permutation _ _ (Permutation_map m_movie_id Pm)).
  rewrite <- (text_dtype_permutation _ _ (Permutation_map r_user_id Pr)).
  rewrite <- (text_dtype_permutation _ _ (Permutation_map u_user_id Pu)).
  destruct (merge_permutation r_item_id m_movie_id
              (text_dtype (map r_item_id ratings))
              (text_dtype (map m_movie_id movies)) _ _ _ _ Pr Pm)
    as [[e [-> ->]]|[w [w' [-> [-> Pw]]]]].
  - left. exists e. now split.
  - simpl. now apply merge_permutation.
Qed.

Lemma numeric_ages_permutation (joined joined' : list joined_row) :
  Permutation joined joined' ->
  (exists e, numeric_ages joined = Raise e /\
             numeric_ages joined' = Raise e) \/
  (exists m m', numeric_ages joined = Ok m /\ numeric_ages joined' = Ok m' /\
                Permutation m m').
Proof.
  intro P. unfold numeric_ages, joined_row in *.
  rewrite <- (existsb_permutation _ _ _ P).
  destruct (existsb _ joined).
  - left. exists TypeError. now split.
  - right. eexists. eexists. split; [reflexivity|]. split; [reflexivity|].
    now apply Permutation_map.
Qed.

(** Sources in the format of the data set are readable and their records
    are no wider than the names. *)
Lemma well_formed_narrow (config : paths) :
  well_formed config = true ->
  exists ratings movies users,
    ratings_data_path config = Some ratings /\
    movies_data_path config = Some movies /\
    user_data_path config = Some users /\
    Forall (fun r => (List.length r <= List.length ratings_names)%nat)
           (non_blank ratings) /\
    Forall (fun r => (List.length r <= List.length movies_names)%nat)
           (non_blank movies) /\
    Forall (fun r => (List.length r <= List.length users_names)%nat)
           (non_blank users).
Proof.
  unfold well_formed.
  destruct (ratings_data_path config) as [ratings|]; [|discriminate].
  destruct (movies_data_path config) as [movies|]; [|discriminate].
  destruct (user_data_path config) as [users|]; [|discriminate].
  rewrite !andb_true_iff, !forallb_forall. intros [[Hr Hm] Hu].
  exists ratings, movies, users.
  split; [reflexivity|]. split; [reflexivity|]. split; [reflexivity|].
  rewrite !Forall_forall. split; [|split].
  - intros r H. specialize (Hr r H). rewrite !andb_true_iff in Hr.
    apply Nat.leb_le. tauto.
  - intros r H. specialize (Hm r H). rewrite !andb_true_iff in Hm.
    apply Nat.leb_le. tauto.
  - intros r H. specialize (Hu r H). rewrite !andb_true_iff in Hu.
    apply Nat.leb_le. tauto.
Qed.

Lemma load_and_merge_reordered (config config' : paths) :
  well_formed config = true -> reordered config config' ->
  (exists e, load_and_merge config = Raise e /\
             load_and_merge config' = Raise e) \/
  (exists m m', load_and_merge config = Ok m /\
                load_and_merge config' = Ok m' /\ Permutation m m').
Proof.
  intros W [Hr [Hm Hu]].
  destruct (well_formed_narrow config W)
    as [r [m [u [Er [Em [Eu [Nr [Nm Nu]]]]]]]].
  unfold load_and_merge. rewrite Er, Em, Eu in *.
  destruct (ratings_data_path config') as [r'|]; [|contradiction].
  destruct (movies_data_path config') as [m'|]; [|contradiction].
  destruct (user_data_path config') as [u'|]; [|contradiction].
  simpl in Hr, Hm, Hu.
  destruct (read_csv_permutation ratings_names r r' Nr Hr)
    as [fr [fr' [-> [-> Pr]]]].
  destruct (read_csv_permutation movies_names m m' Nm Hm)
    as [fm [fm' [-> [-> Pm]]]].
  destruct (read_csv_permutation users_names u u' Nu Hu)
    as [fu [fu' [-> [-> Pu]]]].
  simpl.
  destruct (merge_datasets_permutation _ _ _ _ _ _
              (Permutation_map rating_of Pr) (Permutation_map movie_of Pm)
              (Permutation_map user_of Pu))
    as [[e [-> ->]]|[j [j' [-> [-> Pj]]]]].
  - left. exists e. now split.
  - simpl. now apply numeric_ages_permutation.
Qed.

(** X13: for sources in the format of the data set and sums that are exact,
    the outcome of a run does not depend on the order of the records inside
    the three files: with the records of each file reordered, the run
    returns the same result and leaves the same database. *)
Theorem run_ignores_record_order (config config' : paths) (sv : server)
    (db : database)
    (Hwf : well_formed config = true)
    (Hexact : exact_sums (merged_data_of config))
    (H : reordered config config') :
  execute config' sv db = execute config sv db.
Proof.
  unfold execute.
  destruct (load_and_merge_reordered config config' Hwf H)
    as [[e [-> ->]]|[m [m' [-> [-> P]]]]]; [reflexivity|].
  now rewrite (aggregate_permutation _ _ P).
Qed.

Lemma run_ignores_record_order_witness :
  well_formed scenario_twice = true /\
  exact_sums (merged_data_of scenario_twice) /\
  reordered scenario_twice scenario_shuffled /\
  execute scenario_shuffled reliable_server empty_database
  = execute scenario_twice reliable_server empty_database.
Proof.
  assert (E : exact_sums (merged_data_of scenario_twice))
    by (apply (exact_sums_check 19); vm_compute; reflexivity).
  assert (H : reordered scenario_twice scenario_shuffled).
  { split; [apply perm_swap|]. split; apply Permutation_refl. }
  split; [reflexivity|]. split; [exact E|]. split; [exact H|].
  exact (run_ignores_record_order scenario_twice scenario_shuffled
           reliable_server empty_database eq_refl E H).
Defined.

(** ** A failed run *)

Lemma save_to_postgres_failure (sv : server) (t : string)
    (df : list top_row) (db : database) (e : error) (c : connection) :
  save_to_postgres sv t df db = (Raise e, c) ->
  e = PersistenceError /\ durable c = db.
Proof.
  unfold save_to_postgres.
  destruct (refuses_connection sv); [now intros [= <- <-]|].
  unfold and_then.
  pose proof (cursor_execute_cases sv (CreateTableIfNotExists t) (connect db))
    as [H1 [H2 H3]].
  destruct (cursor_execute sv (CreateTableIfNotExists t) (connect db))
    as [[[]|e1] c1]; simpl in H1, H2, H3.
  - destruct (insert_rows_cases sv t df c1) as [D M].
    destruct (insert_rows sv t df c1) as [[[]|e2] c2]; simpl in D.
    + discriminate.
    + intros [= <- <-]. split; [apply M|congruence].
  - intros [= <- <-]. now split.
Qed.

(** X14: a run that fails, whether while loading or while writing, leaves
    the database exactly as it was. *)
Theorem failed_run_leaves_database_unchanged (config : paths) (sv : server)
    (db : database) (e : error)
    (Hfail : fst (execute config sv db) = Raise e) :
  snd (execute config sv db) = db.
Proof.
  unfold execute in *.
  destruct (load_and_merge config) as [m|e0]; [|reflexivity].
  destruct (save_to_postgres sv "top_genres" (aggregate m) db) as [r c] eqn:S.
  simpl in *. subst r.
  exact (proj2 (save_to_postgres_failure _ _ _ _ _ _ S)).
Qed.

Lemma failed_run_leaves_database_unchanged_witness :
  fst (execute scenario failing_server empty_database)
  = Raise PersistenceError /\
  snd (execute scenario failing_server empty_database) = empty_database.
Proof.
  assert (H : fst (execute scenario failing_server empty_database)
              = Raise PersistenceError) by reflexivity.
  split; [exact H|].
  exact (failed_run_leaves_database_unchanged scenario failing_server
           empty_database PersistenceError H).
Defined.

(** ** Coercion of the genre cells *)



(** ** Counting every row twice *)

Lemma levels_app_same (c : list (option string)) :
  levels (c ++ c) = levels c.
Proof.
  apply sorted_ext; try apply levels_sorted.
  intro x. rewrite !in_levels, in_app_iff. tauto.
Qed.

Lemma column_sum_app (j : nat) (l1 l2 : list row) :
  column_sum j (l1 ++ l2) = column_sum j l1 + column_sum j l2.
Proof.
  unfold column_sum. induction l1 as [|r l1 IH]; simpl; [reflexivity|].
  rewrite IH. lia.
Qed.

Lemma group_sum_double (rows : list row) (b o : string) :
  group_sum (rows ++ rows) b o = map (Z.mul 2) (group_sum rows b o).
Proof.
  unfold group_sum. rewrite map_map. apply map_ext. intro j.
  rewrite filter_app, column_sum_app. lia.
Qed.

Lemma combine_scale (k : Z) (names : list string) (v : list Z) :
  combine names (map (Z.mul k) v)
  = map (fun p => (fst p, k * snd p)) (combine names v).
Proof.
  revert v. induction names as [|g names IH]; intros [|z v]; simpl;
    try reflexivity.
  now rewrite IH.
Qed.

Lemma insert_desc_scale (k : Z) (x : string * Z) (l : list (string * Z)) :
  0 < k ->
  insert_desc (fst x, k * snd x) (map (fun p => (fst p, k * snd p)) l)
  = map (fun p => (fst p, k * snd p)) (insert_desc x l).
Proof.
  intro Hk. induction l as [|y l IH]; simpl; [reflexivity|].
  replace (k * snd y <=? k * snd x) with (snd y <=? snd x).
  - destruct (snd y <=? snd x); simpl; [reflexivity|now rewrite IH].
  - destruct (Z.leb_spec (snd y) (snd x));
      destruct (Z.leb_spec (k * snd y) (k * snd x)); try reflexivity; nia.
Qed.

Lemma sort_desc_scale (k : Z) (l : list (string * Z)) :
  0 < k ->
  sort_desc (map (fun p => (fst p, k * snd p)) l)
  = map (fun p => (fst p, k * snd p)) (sort_desc l).
Proof.
  intro Hk. induction l as [|x l IH]; simpl; [reflexivity|].
  rewrite IH. now apply insert_desc_scale.
Qed.

Lemma top_genres_scale (k : Z) (v : list Z) :
  0 < k -> top_genres (map (Z.mul k) v) = top_genres v.
Proof.
  intro Hk. unfold top_genres, nlargest.
  rewrite combine_scale, sort_desc_scale by exact Hk.
  rewrite firstn_map, map_map. reflexivity.
Qed.

(** X16: the ranking depends on the proportions only: when every joined row
    is present twice, and the sums still are exact, the result rows and
    their top genres are the same. *)
Theorem counting_rows_twice_changes_nothing (merged_data : list merged_row)
    (Hexact : exact_sums (merged_data ++ merged_data)) :
  aggregate (merged_data ++ merged_data) = aggregate merged_data.
Proof.
  unfold aggregate, top_genres_df, genre_summary.
  rewrite !occupation_prepare, !map_app, levels_app_same.
  rewrite !flat_map_concat_map, !concat_map. f_equal.
  rewrite !map_map. apply map_ext. intro b.
  rewrite !map_map. apply map_ext. intro o. simpl. f_equal.
  rewrite group_sum_double. apply top_genres_scale. lia.
Qed.

Lemma counting_rows_twice_changes_nothing_witness :
  exact_sums (scenario_merged ++ scenario_merged) /\
  aggregate (scenario_merged ++ scenario_merged) = aggregate scenario_merged.
Proof.
  assert (H : exact_sums (scenario_merged ++ scenario_merged))
    by (apply (exact_sums_check 19); vm_compute; reflexivity).
  split; [exact H|].
  exact (counting_rows_twice_changes_nothing scenario_merged H).
Defined.

(** ** The first genre and the size of the sums *)

(** X17: the first genre of every result row is the favourite of the group:
    no genre column has a larger sum, and among the columns with that sum
    it is the earliest declared. *)
Theorem first_genre_has_the_largest_sum (merged_data : list merged_row)
    (t : top_row) (Ht : In t (aggregate merged_data)) :
  let sums :=
    group_sum (map prepare merged_data) (t_age_group t) (t_occupation t) in
  exists g rest,
    t_top_genres t = g :: rest /\
    forall h, In h genre_columns ->
      score sums h <= score sums g /\
      (score sums h = score sums g ->
       (index_of g genre_columns <= index_of h genre_columns)%nat).
Proof.
  intro sums. rewrite (aggregate_row _ _ Ht). fold sums.
  destruct (top_genres_ranked sums) as [L [I [S C]]];
    [apply group_sum_length|].
  destruct (top_genres sums) as [|g rest] eqn:E; [discriminate L|].
  exists g, rest. split; [reflexivity|].
  intros h Hh.
  destruct (string_dec h g) as [->|N]; [split; [lia|intros _; lia]|].
  assert (R : ranks_before sums g h).
  { destruct (in_dec string_dec h (g :: rest)) as [[Y|Y]|Y].
    - congruence.
    - apply StronglySorted_inv in S. destruct S as [_ F].
      rewrite Forall_forall in F. now apply F.
    - apply C; [now left|exact Hh|exact Y]. }
  unfold ranks_before in R. split; [lia|]. intro Eq. lia.
Qed.

Lemma first_genre_has_the_largest_sum_witness :
  In (mk_top "20-25" "engineer"
        ["Comedy"; "unknown"; "Action"; "Adventure"; "Animation"])
     (aggregate scenario_merged) /\
  exists g rest,
    ["Comedy"; "unknown"; "Action"; "Adventure"; "Animation"] = g :: rest.
Proof.
  assert (H : In (mk_top "20-25" "engineer"
                    ["Comedy"; "unknown"; "Action"; "Adventure"; "Animation"])
                 (aggregate scenario_merged))
    by (vm_compute; tauto).
  split; [exact H|].
  destruct (first_genre_has_the_largest_sum scenario_merged _ H)
    as [g [rest [E _]]].
  exists g, rest. exact E.
Defined.

Lemma column_sum_bounds (j : nat) (merged_data : list merged_row)
    (f : row -> bool) :
  (forall m, In m merged_data -> indicator_flags m) ->
  0 <= column_sum j (filter f (map prepare merged_data))
    <= Z.of_nat (List.length (filter f (map prepare merged_data))).
Proof.
  induction merged_data as [|m ms IH]; intro H; [simpl; unfold column_sum;
    simpl; lia|].
  assert (IH' := IH (fun m' Hm' => H m' (or_intror Hm'))).
  simpl map. simpl filter. destruct (f (prepare m)); [|exact IH'].
  unfold column_sum in *. cbn [map fold_right List.length].
  rewrite flags_prepare_nth.
  destruct (H m (or_introl eq_refl) j) as [E|E]; rewrite E; lia.
Qed.

(** X18: when the genre flags are indicators (0 or 1), every summed value of
    a group lies between 0 and the number of joined rows of the group. *)
Theorem indicator_sums_are_bounded (merged_data : list merged_row)
    (b o : string) (j : nat)
    (Hflags : forall m, In m merged_data -> indicator_flags m)
    (Hj : (j < List.length genre_columns)%nat) :
  0 <= nth j (group_sum (map prepare merged_data) b o) 0
    <= Z.of_nat
         (List.length (filter (in_group b o) (map prepare merged_data))).
Proof.
  rewrite group_sum_nth by exact Hj. now apply column_sum_bounds.
Qed.

Lemma indicator_sums_are_bounded_witness :
  (forall m, In m scenario_merged -> indicator_flags m) /\
  (5 < List.length genre_columns)%nat /\
  0 <= nth 5 (group_sum (map prepare scenario_merged) "20-25" "engineer") 0
    <= Z.of_nat
         (List.length
            (filter (in_group "20-25" "engineer")
               (map prepare scenario_merged))).
Proof.
  assert (F : forall m, In m scenario_merged -> indicator_flags m).
  { intros m [<-|[]] j.
    do 19 (destruct j as [|j]; [vm_compute; tauto|]).
    left. unfold flag. cbn [genres scenario_merged].
    vm_compute. now destruct j. }
  assert (H : (5 < List.length genre_columns)%nat) by (simpl; lia).
  split; [exact F|]. split; [exact H|].
  exact (indicator_sums_are_bounded scenario_merged "20-25" "engineer" 5 F H).
Defined.

(** ** Nothing is lost or counted twice by the grouping *)

Lemma genre_summary_as_map (rows : list row) :
  genre_summary rows
  = map (fun k => (fst k, snd k, group_sum rows (fst k) (snd k)))
        (list_prod age_labels (levels (map row_occupation rows))).
Proof.
  unfold genre_summary.
  induction age_labels as [|b labels IH]; simpl; [reflexivity|].
  now rewrite map_app, map_map, IH.
Qed.

Lemma in_group_true (b o : string) (r : row) :
  in_group b o r = true <-> age_group r = Some b /\ row_occupation r = Some o.
Proof.
  unfold in_group. now rewrite andb_true_iff, !option_eqb_true.
Qed.

Lemma zsum_map_add {A : Type} (f g : A -> Z) (l : list A) :
  zsum (map (fun a => f a + g a) l) = zsum (map f l) + zsum (map g l).
Proof.
  unfold zsum. induction l as [|a l IH]; simpl; [reflexivity|].
  rewrite IH. lia.
Qed.

Lemma zsum_map_zero {A : Type} (f : A -> Z) (l : list A) :
  (forall a, In a l -> f a = 0) -> zsum (map f l) = 0.
Proof.
  unfold zsum. induction l as [|a l IH]; simpl; intro H; [reflexivity|].
  rewrite (H a (or_introl eq_refl)), IH; [reflexivity|].
  intros a' Ha'. apply H. now right.
Qed.

(** A row adds its value to the key it belongs to, once. *)
Lemma sum_over_keys (K : list (string * string)) (r : row) (x : Z) :
  NoDup K ->
  zsum (map (fun k => if in_group (fst k) (snd k) r then x else 0) K)
  = if existsb (fun k => in_group (fst k) (snd k) r) K then x else 0.
Proof.
  induction 1 as [|k K Hk N IH]; [reflexivity|].
  cbn [map existsb]. unfold zsum in *. cbn [fold_right]. rewrite IH.
  destruct (in_group (fst k) (snd k) r) eqn:E; [|simpl; lia].
  simpl. replace (existsb _ K) with false; [lia|].
  symmetry. apply not_true_is_false. intro F.
  apply existsb_exists in F. destruct F as [k' [Hin E']].
  apply in_group_true in E, E'. apply Hk.
  replace k with k'; [exact Hin|].
  destruct k, k'; simpl in *. destruct E, E'. congruence.
Qed.

Lemma partition_sum (j : nat) (K : list (string * string))
    (rows : list row) :
  NoDup K ->
  (forall r, In r rows -> grouped r = true ->
     existsb (fun k => in_group (fst k) (snd k) r) K = true) ->
  zsum (map (fun k => column_sum j (filter (in_group (fst k) (snd k)) rows))
            K)
  = column_sum j (filter grouped rows).
Proof.
  intro N. induction rows as [|r rows IH]; intro H.
  - simpl. apply zsum_map_zero. reflexivity.
  - assert (IH' := IH (fun r' Hr' => H r' (or_intror Hr'))).
    rewrite (map_ext _
      (fun k => (if in_group (fst k) (snd k) r then nth j (flags r) 0 else 0)
                + column_sum j (filter (in_group (fst k) (snd k)) rows))).
    + rewrite zsum_map_add, sum_over_keys, IH' by exact N.
      simpl filter. destruct (grouped r) eqn:G.
      * rewrite (H r (or_introl eq_refl) G). reflexivity.
      * replace (existsb _ K) with false; [reflexivity|].
        symmetry. apply not_true_is_false. intro F.
        apply existsb_exists in F. destruct F as [k [_ E]].
        apply in_group_true in E. destruct E as [E1 E2].
        unfold grouped in G. rewrite E1, E2 in G. discriminate.
    + intro k. simpl filter.
      destruct (in_group (fst k) (snd k) r); reflexivity.
Qed.

Lemma column_sum_flags (j : nat) (f : row -> bool)
    (merged_data : list merged_row) :
  column_sum j (filter f (map prepare merged_data))
  = zsum (map (flag j) (filter (fun m => f (prepare m)) merged_data)).
Proof.
  unfold column_sum, zsum.
  induction merged_data as [|m ms IH]; simpl; [reflexivity|].
  destruct (f (prepare m)); [|exact IH].
  cbn [map fold_right]. now rewrite flags_prepare_nth, IH.
Qed.

(** X19: the grouping neither loses nor repeats anything: as long as the
    sums are exact, for every genre column the sums of all the groups add
    up to the sum of the flags of the joined rows that have an age group and
    an occupation. *)
Theorem group_sums_add_up (merged_data : list merged_row) (j : nat)
    (Hexact : exact_sums merged_data)
    (Hj : (j < List.length genre_columns)%nat) :
  zsum (map (fun g => nth j (snd g) 0)
            (genre_summary (map prepare merged_data)))
  = zsum (map (flag j)
              (filter (fun m => grouped (prepare m)) merged_data)).
Proof.
  rewrite genre_summary_as_map, map_map. cbn [snd].
  rewrite (map_ext _
    (fun k => column_sum j
                (filter (in_group (fst k) (snd k)) (map prepare merged_data))))
    by (intro k; now apply group_sum_nth).
  rewrite partition_sum.
  - apply column_sum_flags.
  - apply NoDup_list_prod; [exact age_labels_NoDup|].
    apply sorted_NoDup, levels_sorted.
  - intros r Hr G. apply existsb_exists.
    unfold grouped in G.
    destruct (age_group r) as [b|] eqn:Eb; [|discriminate].
    destruct (row_occupation r) as [o|] eqn:Eo; [|discriminate].
    exists (b, o). split.
    + apply in_prod.
      * apply in_map_iff in Hr. destruct Hr as [m [<- _]].
        now apply (cut_in_labels (age m)).
      * apply in_levels. rewrite <- Eo. now apply in_map.
    + apply in_group_true. now split.
Qed.

Lemma group_sums_add_up_witness :
  exact_sums (merged_data_of negative_age) /\
  (5 < List.length genre_columns)%nat /\
  zsum (map (fun g => nth 5 (snd g) 0)
            (genre_summary (map prepare (merged_data_of negative_age))))
  = 1.
Proof.
  assert (E : exact_sums (merged_data_of negative_age))
    by (apply (exact_sums_check 19); vm_compute; reflexivity).
  assert (H : (5 < List.length genre_columns)%nat) by (simpl; lia).
  split; [exact E|]. split; [exact H|].
  rewrite (group_sums_add_up (merged_data_of negative_age) 5 E H).
  reflexivity.
Defined.

